(** * The A-Frame camera system ([src/systems/camera.js])

    A shallow embedding of the camera system: the scene host it talks to
    (element tree, attribute store, listener table, event log, timer queue,
    current-camera slot) is an explicit state, and every method of the system
    is a function on that state.

    Conventions.
    - An element is named by a reference ([nat]); the attribute store maps
      references to entity records, whether or not the element is attached.
      Two JavaScript references are [===] exactly when the model references
      are equal.
    - [setAttribute], [play], [pause] are the plain writes the system asks
      for.  What the camera component (another file) does in reaction to an
      attribute change is outside this file and not part of the model.
    - Numbers are binary64 floating-point numbers, as in JavaScript
      ([PrimFloat.float], with its [+] and [-]).
    - The file has no strict-mode directive, so a plain function call binds
      [this] to the global object. *)

From Stdlib Require Import PrimFloat.
From stdpp Require Import gmap strings list fin_maps numbers.

Set Warnings "-register-all,-inexact-float".

(** ** Data *)

Record Vec3 := mkVec3 { x : float; y : float; z : float }.

(** [var DEFAULT_CAMERA_ATTR = 'data-aframe-default-camera'] *)
Definition DEFAULT_CAMERA_ATTR : string := "data-aframe-default-camera".

(** [var DEFAULT_CAMERA_POSITION = {x: 0, y: 1.8, z: 4}] *)
Definition DEFAULT_CAMERA_POSITION : Vec3 :=
  {| x := 0; y := 1.8; z := 4 |}%float.

(** The renderable camera object returned by [getObject3D('camera')];
    [el] is its back-reference to the owning entity. *)
Record Object3D := mkObject3D { uuid : nat; el : nat }.

(** The [camera] attribute block; only its [active] sub-field is used here. *)
Record CameraData := mkCameraData { active : bool }.

(** What the system reads and writes of one [a-entity]. *)
Record Entity := mkEntity {
  position : Vec3;                    (* attribute 'position' *)
  default_camera_attr : bool;         (* attribute DEFAULT_CAMERA_ATTR present *)
  camera : option CameraData;         (* attribute 'camera' *)
  wasd_controls : bool;               (* attribute 'wasd-controls' present *)
  look_controls : bool;               (* attribute 'look-controls' present *)
  object3D_camera : option Object3D;  (* getObject3D('camera') *)
  isPlaying : bool                    (* play() / pause() *)
}.

(** The element tree below [sceneEl]: a reference and its children, in
    document order. *)
Inductive Node := node (ref : nat) (childNodes : list Node).

Definition ref (n : Node) : nat := let 'node r _ := n in r.
Definition childNodes (n : Node) : list Node := let 'node _ ks := n in ks.

(** The two methods rebound by [bindMethods]; these are the function values
    handed to [addEventListener]. *)
Inductive Handler := bound_removeDefaultOffset | bound_addDefaultOffset.

(** An emitted event: its name and the [cameraEl] of its payload. *)
Record Event := mkEvent { name : string; cameraEl : nat }.

(** Callbacks handed to [setTimeout]. *)
Inductive Task := checkForCamera_task.

Record State := mkState {
  entities : gmap nat Entity;            (* every element created so far *)
  next_ref : nat;                        (* next reference of createElement *)
  children : list Node;                  (* children of sceneEl *)
  sceneEl_camera : option Object3D;      (* sceneEl.camera *)
  listeners : list (string * Handler);   (* listeners registered on sceneEl *)
  emitted : list Event;                  (* events emitted on sceneEl, oldest first *)
  timeouts : list Task;                  (* pending setTimeout callbacks *)
  activeCameraEl : option nat            (* this.activeCameraEl *)
}.

Inductive Exn := TypeError | NotFoundError.

(** How a call ends: normally, or by an exception, in the state reached. *)
Inductive Completion := Normal (s : State) | Throw (e : Exn) (s : State).

Definition bindC (c : Completion) (k : State -> Completion) : Completion :=
  match c with
  | Normal s => k s
  | Throw e s => Throw e s
  end.

Definition state_of (c : Completion) : State :=
  match c with Normal s | Throw _ s => s end.

#[global] Instance Object3D_eq_dec : EqDecision Object3D.
Proof. solve_decision. Defined.
#[global] Instance CameraData_eq_dec : EqDecision CameraData.
Proof. solve_decision. Defined.
#[global] Instance Handler_eq_dec : EqDecision Handler.
Proof. solve_decision. Defined.
#[global] Instance Event_eq_dec : EqDecision Event.
Proof. solve_decision. Defined.

(** ** State updates *)

Definition set_entities (f : gmap nat Entity -> gmap nat Entity) (s : State) : State :=
  mkState (f (entities s)) (next_ref s) (children s) (sceneEl_camera s)
          (listeners s) (emitted s) (timeouts s) (activeCameraEl s).

Definition set_next_ref (r : nat) (s : State) : State :=
  mkState (entities s) r (children s) (sceneEl_camera s)
          (listeners s) (emitted s) (timeouts s) (activeCameraEl s).

Definition set_children (f : list Node -> list Node) (s : State) : State :=
  mkState (entities s) (next_ref s) (f (children s)) (sceneEl_camera s)
          (listeners s) (emitted s) (timeouts s) (activeCameraEl s).

Definition set_sceneEl_camera (c : option Object3D) (s : State) : State :=
  mkState (entities s) (next_ref s) (children s) c
          (listeners s) (emitted s) (timeouts s) (activeCameraEl s).

Definition set_listeners (f : list (string * Handler) -> list (string * Handler))
    (s : State) : State :=
  mkState (entities s) (next_ref s) (children s) (sceneEl_camera s)
          (f (listeners s)) (emitted s) (timeouts s) (activeCameraEl s).

Definition set_emitted (f : list Event -> list Event) (s : State) : State :=
  mkState (entities s) (next_ref s) (children s) (sceneEl_camera s)
          (listeners s) (f (emitted s)) (timeouts s) (activeCameraEl s).

Definition set_timeouts (f : list Task -> list Task) (s : State) : State :=
  mkState (entities s) (next_ref s) (children s) (sceneEl_camera s)
          (listeners s) (emitted s) (f (timeouts s)) (activeCameraEl s).

Definition set_activeCameraEl (a : option nat) (s : State) : State :=
  mkState (entities s) (next_ref s) (children s) (sceneEl_camera s)
          (listeners s) (emitted s) (timeouts s) a.

(** ** The scene host *)

(** An element followed by its descendants, in document order. *)
Fixpoint subtrees (n : Node) : list Node :=
  match n with
  | node _ ks => n :: flat_map subtrees ks
  end.

(** The descendants of an element whose children are [roots]. *)
Definition descendants (roots : list Node) : list Node := flat_map subtrees roots.

(** The attribute selectors ['[camera]'] and
    ['[' + DEFAULT_CAMERA_ATTR + ']']. *)
Definition sel_camera (e : Entity) : bool :=
  match camera e with Some _ => true | None => false end.

Definition sel_default_camera (e : Entity) : bool := default_camera_attr e.

Definition matches (sel : Entity -> bool) (s : State) (n : Node) : bool :=
  match entities s !! ref n with
  | Some e => sel e
  | None => false
  end.

(** [parent.querySelectorAll(sel)], for the parent whose children are [roots]. *)
Definition querySelectorAll (roots : list Node) (sel : Entity -> bool) (s : State)
    : list Node :=
  filter (λ n, Is_true (matches sel s n)) (descendants roots).

(** [parent.querySelector(sel)]: the first match, or null. *)
Definition querySelector (roots : list Node) (sel : Entity -> bool) (s : State)
    : option Node :=
  head (querySelectorAll roots sel s).

(** [list[i]] on a NodeList: undefined outside [0 .. length - 1]. *)
Definition item (l : list Node) (i : Z) : option Node :=
  if bool_decide (i < 0)%Z then None else l !! Z.to_nat i.

(** [el.getObject3D('camera')] *)
Definition getObject3D_camera (r : nat) (s : State) : option Object3D :=
  entities s !! r ≫= object3D_camera.

(** [el.getAttribute('position')] *)
Definition getAttribute_position (r : nat) (s : State) : option Vec3 :=
  position <$> entities s !! r.

Definition with_position (p : Vec3) (e : Entity) : Entity :=
  mkEntity p (default_camera_attr e) (camera e) (wasd_controls e)
           (look_controls e) (object3D_camera e) (isPlaying e).

Definition with_default_camera_attr (e : Entity) : Entity :=
  mkEntity (position e) true (camera e) (wasd_controls e)
           (look_controls e) (object3D_camera e) (isPlaying e).

Definition with_camera (c : CameraData) (e : Entity) : Entity :=
  mkEntity (position e) (default_camera_attr e) (Some c) (wasd_controls e)
           (look_controls e) (object3D_camera e) (isPlaying e).

Definition with_wasd_controls (e : Entity) : Entity :=
  mkEntity (position e) (default_camera_attr e) (camera e) true
           (look_controls e) (object3D_camera e) (isPlaying e).

Definition with_look_controls (e : Entity) : Entity :=
  mkEntity (position e) (default_camera_attr e) (camera e) (wasd_controls e)
           true (object3D_camera e) (isPlaying e).

Definition with_isPlaying (b : bool) (e : Entity) : Entity :=
  mkEntity (position e) (default_camera_attr e) (camera e) (wasd_controls e)
           (look_controls e) (object3D_camera e) b.

(** [el.setAttribute('position', p)] *)
Definition setAttribute_position (r : nat) (p : Vec3) : State -> State :=
  set_entities (alter (with_position p) r).

(** [el.setAttribute(DEFAULT_CAMERA_ATTR, '')] *)
Definition setAttribute_default_camera (r : nat) : State -> State :=
  set_entities (alter with_default_camera_attr r).

(** [el.setAttribute('camera', {active: b})] and
    [el.setAttribute('camera', 'active', b)]: with [active] the only
    sub-field kept, both leave the block [{active: b}]. *)
Definition setAttribute_camera_active (r : nat) (b : bool) : State -> State :=
  set_entities (alter (with_camera (mkCameraData b)) r).

(** [el.setAttribute('wasd-controls', '')], [el.setAttribute('look-controls', '')] *)
Definition setAttribute_wasd_controls (r : nat) : State -> State :=
  set_entities (alter with_wasd_controls r).

Definition setAttribute_look_controls (r : nat) : State -> State :=
  set_entities (alter with_look_controls r).

(** [el.play()], [el.pause()] *)
Definition play (r : nat) : State -> State :=
  set_entities (alter (with_isPlaying true) r).

Definition pause (r : nat) : State -> State :=
  set_entities (alter (with_isPlaying false) r).

(** A new [a-entity]: the default position component, nothing else. *)
Definition blank_entity : Entity :=
  mkEntity (mkVec3 0 0 0) false None false false None false.

(** [document.createElement('a-entity')]: the new element is [next_ref s]. *)
Definition createElement (s : State) : State :=
  set_next_ref (S (next_ref s)) (set_entities (insert (next_ref s) blank_entity) s).

(** [sceneEl.appendChild(el)] for a new element without children. *)
Definition appendChild (r : nat) : State -> State :=
  set_children (λ l, l ++ [node r []]).

(** [sceneEl.removeChild(el)]: throws unless [el] is a child of [sceneEl].
    A reference names one element, so at most one child goes. *)
Definition removeChild (r : nat) (s : State) : Completion :=
  if bool_decide (r ∈ ref <$> children s)
  then Normal (set_children (filter (λ n, ref n ≠ r)) s)
  else Throw NotFoundError s.

(** [sceneEl.addEventListener(type, h)]: a listener already there is not
    added again. *)
Definition addEventListener (type : string) (h : Handler) : State -> State :=
  set_listeners (λ l, if bool_decide ((type, h) ∈ l) then l else l ++ [(type, h)]).

(** [sceneEl.removeEventListener(type, h)]: with [h] undefined nothing is
    removed. *)
Definition removeEventListener (type : string) (h : option Handler) : State -> State :=
  match h with
  | Some h => set_listeners (filter (λ l, l ≠ (type, h)))
  | None => λ s, s
  end.

(** [sceneEl.emit(name, {cameraEl: r})].  The system listens to neither of
    the events it emits, so the emission runs no handler of this file. *)
Definition emit (name : string) (r : nat) : State -> State :=
  set_emitted (λ l, l ++ [mkEvent name r]).

(** [setTimeout(t)] *)
Definition setTimeout (t : Task) : State -> State :=
  set_timeouts (λ l, l ++ [t]).

(** ** The camera system *)

(** The value of [this] in a call: the system object for a method call, the
    global object for the plain call of a function. *)
Inductive This := this_system | this_global.

(** [this.removeDefaultOffset] and [this.addDefaultOffset]: the bound methods
    on the system; the global object has no such properties (undefined). *)
Definition this_removeDefaultOffset (this : This) : option Handler :=
  match this with
  | this_system => Some bound_removeDefaultOffset
  | this_global => None
  end.

Definition this_addDefaultOffset (this : This) : option Handler :=
  match this with
  | this_system => Some bound_addDefaultOffset
  | this_global => None
  end.

(** The callback of [setupDefaultCamera], run by the timer. *)
Definition checkForCamera (s : State) : State :=
  match sceneEl_camera s with
  | Some currentCamera => emit "camera-ready" (el currentCamera) s
  | None =>
      let defaultCameraEl := next_ref s in
      let s := createElement s in
      let s := setAttribute_position defaultCameraEl DEFAULT_CAMERA_POSITION s in
      let s := setAttribute_default_camera defaultCameraEl s in
      let s := setAttribute_camera_active defaultCameraEl true s in
      let s := setAttribute_wasd_controls defaultCameraEl s in
      let s := setAttribute_look_controls defaultCameraEl s in
      let s := appendChild defaultCameraEl s in
      let s := addEventListener "enter-vr" bound_removeDefaultOffset s in
      let s := addEventListener "exit-vr" bound_addDefaultOffset s in
      emit "camera-ready" defaultCameraEl s
  end.

Definition setupDefaultCamera (s : State) : State :=
  setTimeout checkForCamera_task s.

(** [bindMethods] replaces two methods by their bound versions; nothing of
    the state changes. *)
Definition bindMethods (s : State) : State := s.

Definition init (s : State) : State :=
  let s := set_activeCameraEl None s in
  let s := setupDefaultCamera s in
  bindMethods s.

Definition addDefaultOffset (s : State) : State :=
  match querySelector (children s) sel_default_camera s with
  | None => s
  | Some defaultCamera =>
      match getAttribute_position (ref defaultCamera) s with
      | None => s
      | Some currentPosition =>
          setAttribute_position (ref defaultCamera)
            {| x := (x currentPosition + x DEFAULT_CAMERA_POSITION)%float;
               y := (y currentPosition + y DEFAULT_CAMERA_POSITION)%float;
               z := (z currentPosition + z DEFAULT_CAMERA_POSITION)%float |} s
      end
  end.

Definition removeDefaultOffset (s : State) : State :=
  match querySelector (children s) sel_default_camera s with
  | None => s
  | Some defaultCamera =>
      match getAttribute_position (ref defaultCamera) s with
      | None => s
      | Some currentPosition =>
          setAttribute_position (ref defaultCamera)
            {| x := (x currentPosition - x DEFAULT_CAMERA_POSITION)%float;
               y := (y currentPosition - y DEFAULT_CAMERA_POSITION)%float;
               z := (z currentPosition - z DEFAULT_CAMERA_POSITION)%float |} s
      end
  end.

Definition disableActiveCamera (s : State) : Completion :=
  let cameraEls := querySelectorAll (children s) sel_camera s in
  match item cameraEls (Z.of_nat (length cameraEls) - 1) with
  | None => Throw TypeError s
  | Some newActiveCameraEl =>
      Normal (setAttribute_camera_active (ref newActiveCameraEl) true s)
  end.

(** The function [removeDefaultCamera(sceneEl)] at the end of the file. *)
Definition removeDefaultCamera (this : This) (s : State) : Completion :=
  match sceneEl_camera s with
  | None => Normal s
  | Some _ =>
      match querySelector (children s) sel_default_camera s with
      | None => Normal s
      | Some defaultCamera =>
          bindC (removeChild (ref defaultCamera) s) (λ s,
          let s := removeEventListener "enter-vr" (this_removeDefaultOffset this) s in
          let s := removeEventListener "exit-vr" (this_addDefaultOffset this) s in
          Normal s)
      end
  end.

(** One turn of the loop over [cameraEls] in [setActiveCamera]. *)
Definition disable_other (newCameraEl : nat) (s : State) (cameraEl : Node) : State :=
  if bool_decide (newCameraEl = ref cameraEl) then s
  else pause (ref cameraEl) (setAttribute_camera_active (ref cameraEl) false s).

Definition setActiveCamera (newCameraEl : nat) (s : State) : Completion :=
  let cameraEls := querySelectorAll (children s) sel_camera s in
  let newCamera := getObject3D_camera newCameraEl s in
  let previousCamera := activeCameraEl s in
  match newCamera with
  | None => Normal s
  | Some newCamera =>
      if bool_decide (Some newCameraEl = activeCameraEl s) then Normal s else
      let defaultCameraWrapper := querySelector (children s) sel_default_camera s in
      let defaultCameraEl :=
        defaultCameraWrapper ≫= λ w, querySelector (childNodes w) sel_camera s in
      bindC (if bool_decide (Some newCameraEl ≠ ref <$> defaultCameraEl)
             then removeDefaultCamera this_global s else Normal s) (λ s,
      let s := set_activeCameraEl (Some newCameraEl) s in
      let s := play newCameraEl s in
      let s := set_sceneEl_camera (Some newCamera) s in
      let s := match previousCamera with
               | Some previousCamera =>
                   setAttribute_camera_active previousCamera false s
               | None => s
               end in
      let s := foldl (disable_other newCameraEl) s cameraEls in
      Normal (emit "camera-set-active" newCameraEl s))
  end.

(** ** The host's event loop, as far as the system takes part in it *)

Definition call_handler (h : Handler) : State -> State :=
  match h with
  | bound_removeDefaultOffset => removeDefaultOffset
  | bound_addDefaultOffset => addDefaultOffset
  end.

(** The scene enters or leaves VR: the listeners registered for [type] run in
    registration order. *)
Definition dispatchEvent (type : string) (s : State) : State :=
  foldl (λ s l, if bool_decide (l.1 = type) then call_handler l.2 s else s)
        s (listeners s).

Definition run_task (t : Task) : State -> State :=
  match t with
  | checkForCamera_task => checkForCamera
  end.

(** The timer fires: the oldest pending callback runs, once. *)
Definition tick (s : State) : State :=
  match timeouts s with
  | [] => s
  | t :: ts => run_task t (set_timeouts (λ _, ts) s)
  end.

(** What can happen to a system after [init]. *)
Inductive Op :=
| op_tick
| op_dispatchEvent (type : string)
| op_addDefaultOffset
| op_removeDefaultOffset
| op_disableActiveCamera
| op_setActiveCamera (newCameraEl : nat).

Definition step (s : State) (o : Op) : State :=
  match o with
  | op_tick => tick s
  | op_dispatchEvent type => dispatchEvent type s
  | op_addDefaultOffset => addDefaultOffset s
  | op_removeDefaultOffset => removeDefaultOffset s
  | op_disableActiveCamera => state_of (disableActiveCamera s)
  | op_setActiveCamera r => state_of (setActiveCamera r s)
  end.

Definition run (ops : list Op) (s : State) : State := foldl step s ops.

(** ** Example scenes *)

(** A scene host with nothing in it. *)
Definition empty_host : State := mkState ∅ 0 [] None [] [] [] None.

(** The scene once the system has started on an empty host and its timer has
    fired: the injected default camera is element 0. *)
Definition default_scene : State := tick (init empty_host).

(** An author's camera entity with a realized camera object. *)
Definition author_camera (r : nat) (act : bool) : Entity :=
  mkEntity (mkVec3 0 0 0) false (Some (mkCameraData act)) false false
           (Some (mkObject3D (100 + r) r)) true.

(** One author camera, element 1, not yet chosen by the system. *)
Definition one_camera_scene (act : bool) : State :=
  mkState {[ 1 := author_camera 1 act ]} 2 [node 1 []] None [] [] [] None.

(** The author adds camera 1 to a scene. *)
Definition author_joins (s : State) : State :=
  set_next_ref 2
    (set_children (λ l, l ++ [node 1 []])
       (set_entities (insert 1 (author_camera 1 true)) s)).

(** The default scene with the author's camera added before anything was
    activated: [sceneEl.camera] is still unset. *)
Definition default_and_author_scene : State := author_joins default_scene.

Definition with_object3D_camera (o : Object3D) (e : Entity) : Entity :=
  mkEntity (position e) (default_camera_attr e) (camera e) (wasd_controls e)
           (look_controls e) (Some o) (isPlaying e).

(** The default scene once the default camera has got its camera object and
    has been made the active camera. *)
Definition default_active_scene : State :=
  state_of (setActiveCamera 0
    (set_entities (alter (with_object3D_camera (mkObject3D 100 0)) 0) default_scene)).

(** The author's camera added to the scene whose default camera is active. *)
Definition default_active_and_author_scene : State := author_joins default_active_scene.

Definition without_object3D_camera (e : Entity) : Entity :=
  mkEntity (position e) (default_camera_attr e) (camera e) (wasd_controls e)
           (look_controls e) None (isPlaying e).

(** The same, while the author's camera has no camera object yet. *)
Definition default_active_and_unrealized_scene : State :=
  set_entities (alter without_object3D_camera 1) default_active_and_author_scene.

(** ** Derived notions used in the statements *)

(** The [active] sub-field of an element's [camera] attribute, if it has one. *)
Definition camera_active (r : nat) (s : State) : option bool :=
  active <$> (entities s !! r ≫= camera).

Definition vec_add (p d : Vec3) : Vec3 :=
  {| x := (x p + x d)%float; y := (y p + y d)%float; z := (z p + z d)%float |}.

Definition vec_sub (p d : Vec3) : Vec3 :=
  {| x := (x p - x d)%float; y := (y p - y d)%float; z := (z p - z d)%float |}.

(** The [defaultCameraEl] computed by [setActiveCamera]: the first element
    with a [camera] attribute below the first element carrying the marker. *)
Definition defaultCameraEl_of (s : State) : option Node :=
  querySelector (children s) sel_default_camera s
    ≫= λ w, querySelector (childNodes w) sel_camera s.

(** The statements of [setActiveCamera] after the default camera has been
    dealt with. *)
Definition make_active (newCameraEl : nat) (newCamera : Object3D)
    (previousCamera : option nat) (cameraEls : list Node) (s : State) : Completion :=
  let s := set_activeCameraEl (Some newCameraEl) s in
  let s := play newCameraEl s in
  let s := set_sceneEl_camera (Some newCamera) s in
  let s := match previousCamera with
           | Some previousCamera => setAttribute_camera_active previousCamera false s
           | None => s
           end in
  let s := foldl (disable_other newCameraEl) s cameraEls in
  Normal (emit "camera-set-active" newCameraEl s).

(** What the loop does to an entity it does not skip. *)
Definition disable (e : Entity) : Entity :=
  with_isPlaying false (with_camera (mkCameraData false) e).

(** The attribute store after [play] and the write to the previous camera. *)
Definition store_before_loop (newCameraEl : nat) (previousCamera : option nat)
    (m : gmap nat Entity) : gmap nat Entity :=
  let m := alter (with_isPlaying true) newCameraEl m in
  match previousCamera with
  | Some previousCamera => alter (with_camera (mkCameraData false)) previousCamera m
  | None => m
  end.

(** The state [s'] reached from [s] when [setActiveCamera] switches to [t],
    whose camera object is [cam]: everything the call has written. *)
Record switched (t : nat) (cam : Object3D) (s s' : State) : Prop := {
  sw_next_ref : next_ref s' = next_ref s;
  sw_children :
    children s' = children s
    ∨ ∃ d, querySelector (children s) sel_default_camera s = Some d
           ∧ is_Some (sceneEl_camera s)
           ∧ Some t ≠ ref <$> defaultCameraEl_of s
           ∧ ref d ∈ ref <$> children s
           ∧ children s' = filter (λ n, ref n ≠ ref d) (children s);
  sw_sceneEl_camera : sceneEl_camera s' = Some cam;
  sw_listeners : listeners s' = listeners s;
  sw_emitted : emitted s' = emitted s ++ [mkEvent "camera-set-active" t];
  sw_timeouts : timeouts s' = timeouts s;
  sw_activeCameraEl : activeCameraEl s' = Some t;
  sw_entities : ∀ r,
    entities s' !! r =
      if bool_decide (r ≠ t ∧ r ∈ ref <$> querySelectorAll (children s) sel_camera s)
      then disable <$> store_before_loop t (activeCameraEl s) (entities s) !! r
      else store_before_loop t (activeCameraEl s) (entities s) !! r
}.

(** The [camera-ready] events emitted so far. *)
Definition ready_events (s : State) : list Event :=
  filter (λ e, name e = "camera-ready") (emitted s).

(** [s'] comes from [s] by steps that start no timer, emit no
    [camera-ready], write no marker attribute and attach no element. *)
Record quiet (s s' : State) : Prop := {
  q_timeouts : timeouts s' = timeouts s;
  q_ready : ready_events s' = ready_events s;
  q_marker : ∀ r,
    default_camera_attr <$> entities s' !! r = default_camera_attr <$> entities s !! r;
  q_descendants : ∀ n,
    n ∈ descendants (children s') → n ∈ descendants (children s)
}.

(** The default camera as [checkForCamera] sets it up. *)
Definition default_camera_entity : Entity :=
  mkEntity DEFAULT_CAMERA_POSITION true (Some (mkCameraData true)) true true None false.

(** The [cameraEl] announced by [checkForCamera] when run in [s]. *)
Definition ready_payload (s : State) : nat :=
  match sceneEl_camera s with
  | Some currentCamera => el currentCamera
  | None => next_ref s
  end.

(** The vector with the given components. *)
Definition vec (a b c : float) : Vec3 := mkVec3 a b c.

(** The listeners as [checkForCamera] registers them with the default camera. *)
Definition default_listeners : list (string * Handler) :=
  [("enter-vr", bound_removeDefaultOffset); ("exit-vr", bound_addDefaultOffset)].

(** ** Further scenes and notions *)

(** An element with the marker and no [camera] attribute of its own. *)
Definition wrapper_entity : Entity :=
  mkEntity (mkVec3 0 0 0) true None false false None true.

(** A default camera built as a wrapper: the marked element 0 holds the
    camera 1; the author's camera 2 is the active one. *)
Definition wrapped_default_scene : State :=
  mkState {[ 0 := wrapper_entity; 1 := author_camera 1 true;
             2 := author_camera 2 true ]}
          3 [node 0 [node 1 []]; node 2 []] (Some (mkObject3D 102 2))
          [] [] [] (Some 2).

(** The marked element 0 sits below element 2 instead of below the scene;
    [sceneEl.camera] is set and camera 1 is to be activated. *)
Definition nested_default_scene : State :=
  mkState {[ 0 := default_camera_entity; 1 := author_camera 1 true;
             2 := blank_entity ]}
          3 [node 2 [node 0 []]; node 1 []] (Some (mkObject3D 100 0))
          [] [] [] None.

(** Two author cameras, 1 before 2 in the document; [a] is the active one. *)
Definition two_camera_scene (a : nat) : State :=
  mkState {[ 1 := author_camera 1 (bool_decide (a = 1));
             2 := author_camera 2 (bool_decide (a = 2)) ]}
          3 [node 1 []; node 2 []] (Some (mkObject3D (100 + a) a))
          [] [] [] (Some a).

(** The author's camera was activated while [sceneEl.camera] was unset, so
    the default camera 0 stayed in the scene; now the default camera has got
    its camera object. *)
Definition author_first_scene : State :=
  set_entities (alter (with_object3D_camera (mkObject3D 100 0)) 0)
    (state_of (setActiveCamera 1 default_and_author_scene)).

(** The default camera moved away from where it was created, to
    (0.1, 0.1, 0.1). *)
Definition moved_default_scene : State :=
  setAttribute_position 0 (vec 0.1 0.1 0.1) default_scene.

(** [s'] comes from [s] by steps that write no marker attribute and attach
    no element, and [sceneEl.camera] is set in [s']. *)
Record camera_kept (s s' : State) : Prop := {
  ck_marker : ∀ r,
    default_camera_attr <$> entities s' !! r = default_camera_attr <$> entities s !! r;
  ck_descendants : ∀ n,
    n ∈ descendants (children s') → n ∈ descendants (children s);
  ck_camera : is_Some (sceneEl_camera s')
}.



(** ** Facts about the scene host *)

Lemma item_last (l : list Node) : item l (Z.of_nat (length l) - 1) = list.last l.
Proof.
  unfold item. destruct l as [|a l]; [done|].
  rewrite bool_decide_false by (simpl; lia).
  rewrite last_lookup. f_equal. simpl. lia.
Qed.

Lemma matches_ext sel (s s' : State) n :
  (∀ r, sel <$> entities s' !! r = sel <$> entities s !! r) →
  matches sel s' n = matches sel s n.
Proof.
  intros H. unfold matches. specialize (H (ref n)).
  destruct (entities s' !! ref n), (entities s !! ref n); simpl in H; congruence.
Qed.

Lemma querySelectorAll_ext roots sel (s s' : State) :
  (∀ r, sel <$> entities s' !! r = sel <$> entities s !! r) →
  querySelectorAll roots sel s' = querySelectorAll roots sel s.
Proof.
  intros H. unfold querySelectorAll. apply list_filter_iff.
  intros n. by rewrite (matches_ext sel s s' n H).
Qed.

Lemma querySelector_ext roots sel (s s' : State) :
  (∀ r, sel <$> entities s' !! r = sel <$> entities s !! r) →
  querySelector roots sel s' = querySelector roots sel s.
Proof. intros H. unfold querySelector. by rewrite (querySelectorAll_ext _ _ s s' H). Qed.

(** A write that keeps what a selector looks at is invisible to the queries. *)
Lemma sel_alter {A} (sel : Entity → A) (f : Entity → Entity) r0 (s : State) :
  (∀ e, sel (f e) = sel e) →
  ∀ r, sel <$> entities (set_entities (alter f r0) s) !! r = sel <$> entities s !! r.
Proof.
  intros Hf r. simpl. destruct (decide (r0 = r)) as [->|Hne].
  - rewrite lookup_alter_eq. destruct (entities s !! r); simpl; [by rewrite Hf|done].
  - by rewrite lookup_alter_ne.
Qed.

Lemma querySelector_in_scene roots sel s n :
  querySelector roots sel s = Some n →
  n ∈ descendants roots ∧ ∃ e, entities s !! ref n = Some e ∧ sel e = true.
Proof.
  unfold querySelector, querySelectorAll. intros H.
  apply head_Some_elem_of in H. apply list_elem_of_filter in H as [Hm Hin].
  split; [done|]. unfold matches in Hm.
  destruct (entities s !! ref n) as [e|]; [|done].
  exists e. split; [done|]. by destruct (sel e).
Qed.

(** ** The default offset *)

Lemma querySelector_setAttribute_position roots r p s :
  querySelector roots sel_default_camera (setAttribute_position r p s)
  = querySelector roots sel_default_camera s.
Proof. apply querySelector_ext, sel_alter. by intros []. Qed.

Lemma getAttribute_position_set r p s e :
  entities s !! r = Some e →
  getAttribute_position r (setAttribute_position r p s) = Some p.
Proof.
  intros He. unfold getAttribute_position, setAttribute_position. simpl.
  by rewrite lookup_alter_eq, He.
Qed.

(** What one offset method does, in terms of the marked element. *)
Lemma removeDefaultOffset_found s d e :
  querySelector (children s) sel_default_camera s = Some d →
  entities s !! ref d = Some e →
  removeDefaultOffset s =
    setAttribute_position (ref d) (vec_sub (position e) DEFAULT_CAMERA_POSITION) s.
Proof.
  intros Hq He. unfold removeDefaultOffset, getAttribute_position. by rewrite Hq, He.
Qed.

Lemma addDefaultOffset_found s d e :
  querySelector (children s) sel_default_camera s = Some d →
  entities s !! ref d = Some e →
  addDefaultOffset s =
    setAttribute_position (ref d) (vec_add (position e) DEFAULT_CAMERA_POSITION) s.
Proof.
  intros Hq He. unfold addDefaultOffset, getAttribute_position. by rewrite Hq, He.
Qed.

Lemma removeDefaultOffset_absent s :
  querySelector (children s) sel_default_camera s = None → removeDefaultOffset s = s.
Proof. intros Hq. unfold removeDefaultOffset. by rewrite Hq. Qed.

Lemma addDefaultOffset_absent s :
  querySelector (children s) sel_default_camera s = None → addDefaultOffset s = s.
Proof. intros Hq. unfold addDefaultOffset. by rewrite Hq. Qed.

Lemma removeDefaultOffset_step s d q :
  querySelector (children s) sel_default_camera s = Some d →
  getAttribute_position (ref d) s = Some q →
  querySelector (children (removeDefaultOffset s)) sel_default_camera
    (removeDefaultOffset s) = Some d
  ∧ getAttribute_position (ref d) (removeDefaultOffset s)
    = Some (vec_sub q DEFAULT_CAMERA_POSITION).
Proof.
  intros Hq Hp. unfold getAttribute_position in Hp.
  destruct (entities s !! ref d) as [e|] eqn:He; [|done]. simplify_eq/=.
  rewrite (removeDefaultOffset_found s d e Hq He). split.
  - by rewrite querySelector_setAttribute_position.
  - by apply (getAttribute_position_set _ _ _ e).
Qed.

Lemma addDefaultOffset_step s d q :
  querySelector (children s) sel_default_camera s = Some d →
  getAttribute_position (ref d) s = Some q →
  querySelector (children (addDefaultOffset s)) sel_default_camera
    (addDefaultOffset s) = Some d
  ∧ getAttribute_position (ref d) (addDefaultOffset s)
    = Some (vec_add q DEFAULT_CAMERA_POSITION).
Proof.
  intros Hq Hp. unfold getAttribute_position in Hp.
  destruct (entities s !! ref d) as [e|] eqn:He; [|done]. simplify_eq/=.
  rewrite (addDefaultOffset_found s d e Hq He). split.
  - by rewrite querySelector_setAttribute_position.
  - by apply (getAttribute_position_set _ _ _ e).
Qed.

(** At the position where the default camera is created the round trip is
    exact in binary64. *)
Lemma spawn_round_trip :
  vec_add (vec_sub DEFAULT_CAMERA_POSITION DEFAULT_CAMERA_POSITION)
    DEFAULT_CAMERA_POSITION = DEFAULT_CAMERA_POSITION.
Proof. vm_compute. reflexivity. Qed.

(** C7, as amended.  [removeDefaultOffset] followed by [addDefaultOffset],
    with the default camera in the scene throughout, leaves the default
    camera at the binary64 value (p - d) + d, component by component, where
    p is its starting position and d the default position; starting at the
    default position (0, 1.8, 4) that is exactly the starting position. *)
Theorem offset_pairing (s : State) (d : Node) (p : Vec3) :
  querySelector (children s) sel_default_camera s = Some d →
  getAttribute_position (ref d) s = Some p →
  querySelector (children (removeDefaultOffset s)) sel_default_camera
    (removeDefaultOffset s) = Some d
  ∧ getAttribute_position (ref d) (removeDefaultOffset s)
    = Some (vec_sub p DEFAULT_CAMERA_POSITION)
  ∧ getAttribute_position (ref d) (addDefaultOffset (removeDefaultOffset s))
    = Some (vec_add (vec_sub p DEFAULT_CAMERA_POSITION) DEFAULT_CAMERA_POSITION)
  ∧ (p = DEFAULT_CAMERA_POSITION →
     getAttribute_position (ref d) (addDefaultOffset (removeDefaultOffset s))
     = Some p).
Proof.
  intros Hq Hp.
  destruct (removeDefaultOffset_step s d p Hq Hp) as [Hq1 Hp1].
  destruct (addDefaultOffset_step _ d _ Hq1 Hp1) as [_ Hp2].
  split_and!; try done.
  intros ->. by rewrite Hp2, spawn_round_trip.
Qed.

Lemma offset_pairing_witness :
  getAttribute_position (ref (node 0 []))
    (addDefaultOffset (removeDefaultOffset default_scene))
  = Some DEFAULT_CAMERA_POSITION.
Proof.
  assert (Hq : querySelector (children default_scene) sel_default_camera
                 default_scene = Some (node 0 [])) by (vm_compute; reflexivity).
  assert (Hp : getAttribute_position (ref (node 0 [])) default_scene
               = Some DEFAULT_CAMERA_POSITION) by (vm_compute; reflexivity).
  exact (proj2 (proj2 (proj2 (offset_pairing default_scene (node 0 [])
                                DEFAULT_CAMERA_POSITION Hq Hp))) eq_refl).
Defined.

(** C7 as stated fails: with the default camera at (0.1, 0.1, 0.1), and in
    the scene throughout, [removeDefaultOffset] followed by
    [addDefaultOffset] leaves it at (0.1, 0.10000000000000009,
    0.10000000000000009). *)
Lemma offset_pairing_rounding_counterexample :
  querySelector (children moved_default_scene) sel_default_camera
    moved_default_scene = Some (node 0 [])
  ∧ getAttribute_position 0 moved_default_scene = Some (vec 0.1 0.1 0.1)
  ∧ querySelector (children (removeDefaultOffset moved_default_scene))
      sel_default_camera (removeDefaultOffset moved_default_scene)
    = Some (node 0 [])
  ∧ getAttribute_position 0
      (addDefaultOffset (removeDefaultOffset moved_default_scene))
    = Some (vec 0.1 0.10000000000000009 0.10000000000000009)
  ∧ getAttribute_position 0
      (addDefaultOffset (removeDefaultOffset moved_default_scene))
    ≠ Some (vec 0.1 0.1 0.1).
Proof.
  split_and!; try (vm_compute; reflexivity).
  intros H.
  apply (f_equal (λ o, match o with
                       | Some v => PrimFloat.eqb (y v) 0.1
                       | None => false
                       end)) in H.
  vm_compute in H. discriminate.
Qed.

(** ** [disableActiveCamera] *)

(** C4. With no camera-capable entity in the scene, [disableActiveCamera]
    indexes the empty query result and the call on the undefined value
    throws; nothing guards it, and nothing has been written by then. *)
Theorem disableActiveCamera_no_camera (s : State) :
  querySelectorAll (children s) sel_camera s = [] →
  disableActiveCamera s = Throw TypeError s.
Proof. intros H. unfold disableActiveCamera. by rewrite H. Qed.

Lemma disableActiveCamera_no_camera_witness :
  disableActiveCamera empty_host = Throw TypeError empty_host.
Proof. apply disableActiveCamera_no_camera. vm_compute. reflexivity. Defined.

(** C6. With at least one camera-capable entity in the scene,
    [disableActiveCamera] returns after setting [active] to true on the last
    of them in document order; [activeCameraEl] and every other entity are
    as before, so no entity is set to inactive. *)
Theorem disableActiveCamera_activates_last (s : State) :
  querySelectorAll (children s) sel_camera s ≠ [] →
  ∃ n s',
    list.last (querySelectorAll (children s) sel_camera s) = Some n
    ∧ disableActiveCamera s = Normal s'
    ∧ camera_active (ref n) s' = Some true
    ∧ activeCameraEl s' = activeCameraEl s
    ∧ (∀ r, r ≠ ref n → entities s' !! r = entities s !! r).
Proof.
  intros Hne. apply last_is_Some in Hne as [n Hn]. exists n.
  unfold disableActiveCamera. rewrite item_last, Hn.
  eexists. split_and!; [done|done| |done|].
  - apply last_Some_elem_of in Hn. apply list_elem_of_filter in Hn as [Hm _].
    unfold matches in Hm. unfold camera_active. simpl. rewrite lookup_alter_eq.
    by destruct (entities s !! ref n).
  - intros r Hr. simpl. by rewrite lookup_alter_ne.
Qed.

Lemma disableActiveCamera_activates_last_witness :
  ∃ n s',
    list.last (querySelectorAll (children (one_camera_scene false)) sel_camera
                 (one_camera_scene false)) = Some n
    ∧ disableActiveCamera (one_camera_scene false) = Normal s'
    ∧ camera_active (ref n) s' = Some true
    ∧ activeCameraEl s' = activeCameraEl (one_camera_scene false)
    ∧ (∀ r, r ≠ ref n → entities s' !! r = entities (one_camera_scene false) !! r).
Proof. apply disableActiveCamera_activates_last. vm_compute. discriminate. Defined.

(** ** [setActiveCamera]: the guard *)

Lemma setActiveCamera_unrealized t s :
  getObject3D_camera t s = None → setActiveCamera t s = Normal s.
Proof. intros H. unfold setActiveCamera. by rewrite H. Qed.

Lemma setActiveCamera_already_active t s :
  activeCameraEl s = Some t → setActiveCamera t s = Normal s.
Proof.
  intros H. unfold setActiveCamera.
  destruct (getObject3D_camera t s); [|done]. by rewrite bool_decide_true.
Qed.

(** [setActiveCamera] returns at its guard, or goes on with a camera object
    and a target that is not the active camera. *)
Lemma setActiveCamera_guard_cases t s :
  setActiveCamera t s = Normal s
  ∨ ∃ cam, getObject3D_camera t s = Some cam ∧ activeCameraEl s ≠ Some t.
Proof.
  destruct (getObject3D_camera t s) as [cam|] eqn:Hc.
  - destruct (decide (activeCameraEl s = Some t)) as [Ha|Ha].
    + left. by apply setActiveCamera_already_active.
    + right. eauto.
  - left. by apply setActiveCamera_unrealized.
Qed.

(** C5. A target without a realized camera object, or one that is already
    [activeCameraEl], makes [setActiveCamera] return at once: the state after
    the call is the state before it, so [activeCameraEl], [sceneEl.camera],
    all attributes and the emitted events are unchanged. *)
Theorem setActiveCamera_noop (newCameraEl : nat) (s : State) :
  getObject3D_camera newCameraEl s = None ∨ activeCameraEl s = Some newCameraEl →
  setActiveCamera newCameraEl s = Normal s
  ∧ emitted (state_of (setActiveCamera newCameraEl s)) = emitted s.
Proof.
  intros [H|H].
  - by rewrite setActiveCamera_unrealized.
  - by rewrite setActiveCamera_already_active.
Qed.

Lemma setActiveCamera_noop_witness :
  setActiveCamera 1 (state_of (setActiveCamera 1 (one_camera_scene true)))
  = Normal (state_of (setActiveCamera 1 (one_camera_scene true))).
Proof.
  assert (Ha : activeCameraEl (state_of (setActiveCamera 1 (one_camera_scene true)))
               = Some 1) by (vm_compute; reflexivity).
  exact (proj1 (setActiveCamera_noop 1
                  (state_of (setActiveCamera 1 (one_camera_scene true)))
                  (or_intror Ha))).
Defined.

(** ** [setActiveCamera]: the switch *)

Lemma setActiveCamera_unfold t s cam :
  getObject3D_camera t s = Some cam →
  activeCameraEl s ≠ Some t →
  setActiveCamera t s =
    bindC (if bool_decide (Some t ≠ ref <$> defaultCameraEl_of s)
           then removeDefaultCamera this_global s else Normal s)
          (make_active t cam (activeCameraEl s)
             (querySelectorAll (children s) sel_camera s)).
Proof.
  intros Hc Ha. unfold setActiveCamera. rewrite Hc.
  rewrite bool_decide_false by congruence. reflexivity.
Qed.

(** The plain call [removeDefaultCamera(sceneEl)] either changes nothing,
    or takes the marked element out of the children of the scene, or throws
    before any write.  The listeners stay: [this] is the global object. *)
Lemma removeDefaultCamera_global s :
  removeDefaultCamera this_global s =
    match sceneEl_camera s, querySelector (children s) sel_default_camera s with
    | Some _, Some d => removeChild (ref d) s
    | _, _ => Normal s
    end.
Proof.
  unfold removeDefaultCamera.
  destruct (sceneEl_camera s); [|done].
  destruct (querySelector (children s) sel_default_camera s) as [d|]; [|done].
  unfold removeChild. by case_bool_decide.
Qed.

Lemma default_camera_step_cases t s :
  let c := if bool_decide (Some t ≠ ref <$> defaultCameraEl_of s)
           then removeDefaultCamera this_global s else Normal s in
  (c = Throw NotFoundError s
   ∧ is_Some (sceneEl_camera s)
   ∧ ∃ d, querySelector (children s) sel_default_camera s = Some d
          ∧ ref d ∉ ref <$> children s)
  ∨ c = Normal s
  ∨ ∃ d, querySelector (children s) sel_default_camera s = Some d
         ∧ is_Some (sceneEl_camera s)
         ∧ Some t ≠ ref <$> defaultCameraEl_of s
         ∧ ref d ∈ ref <$> children s
         ∧ c = Normal (set_children (filter (λ n, ref n ≠ ref d)) s).
Proof.
  simpl. case_bool_decide; [|by right; left].
  rewrite removeDefaultCamera_global.
  destruct (sceneEl_camera s) eqn:Hsc; [|by right; left].
  destruct (querySelector (children s) sel_default_camera s) as [d|] eqn:Hq;
    [|by right; left].
  unfold removeChild. case_bool_decide; [|left; eauto].
  right; right. exists d. eauto.
Qed.

Lemma disable_other_entities t s n :
  entities (disable_other t s n) =
    if bool_decide (t = ref n) then entities s else alter disable (ref n) (entities s).
Proof.
  unfold disable_other. case_bool_decide; [done|].
  simpl. by rewrite alter_alter_eq.
Qed.

Lemma disable_other_frame t s n :
  next_ref (disable_other t s n) = next_ref s
  ∧ children (disable_other t s n) = children s
  ∧ sceneEl_camera (disable_other t s n) = sceneEl_camera s
  ∧ listeners (disable_other t s n) = listeners s
  ∧ emitted (disable_other t s n) = emitted s
  ∧ timeouts (disable_other t s n) = timeouts s
  ∧ activeCameraEl (disable_other t s n) = activeCameraEl s.
Proof. unfold disable_other. by case_bool_decide. Qed.

Lemma loop_frame t l s :
  next_ref (foldl (disable_other t) s l) = next_ref s
  ∧ children (foldl (disable_other t) s l) = children s
  ∧ sceneEl_camera (foldl (disable_other t) s l) = sceneEl_camera s
  ∧ listeners (foldl (disable_other t) s l) = listeners s
  ∧ emitted (foldl (disable_other t) s l) = emitted s
  ∧ timeouts (foldl (disable_other t) s l) = timeouts s
  ∧ activeCameraEl (foldl (disable_other t) s l) = activeCameraEl s.
Proof.
  revert s. induction l as [|n l IH]; intros s; [done|].
  simpl. destruct (IH (disable_other t s n)) as (-> & -> & -> & -> & -> & -> & ->).
  apply disable_other_frame.
Qed.

Lemma disable_idemp e : disable (disable e) = disable e.
Proof. by destruct e. Qed.

(** The loop rewrites exactly the listed elements other than the target. *)
Lemma loop_lookup t l s r :
  entities (foldl (disable_other t) s l) !! r =
    if bool_decide (r ≠ t ∧ r ∈ ref <$> l)
    then disable <$> entities s !! r else entities s !! r.
Proof.
  induction l as [|n l IH] using rev_ind.
  - simpl. rewrite bool_decide_false; [done|]. intros [_ H]. by apply elem_of_nil in H.
  - rewrite foldl_app. simpl. rewrite disable_other_entities, fmap_app. simpl.
    assert (Hin : ∀ r', r' ∈ (ref <$> l) ++ [ref n] ↔ r' ∈ (ref <$> l) ∨ r' = ref n).
    { intros r'. by rewrite elem_of_app, list_elem_of_singleton. }
    destruct (decide (t = ref n)) as [Ht|Ht].
    + rewrite (bool_decide_true _ Ht), IH.
      erewrite bool_decide_ext; [reflexivity|]. rewrite Hin. intuition congruence.
    + rewrite (bool_decide_false _ Ht).
      destruct (decide (r = ref n)) as [->|Hr].
      * rewrite lookup_alter_eq, IH.
        rewrite (bool_decide_true (ref n ≠ t ∧ ref n ∈ (ref <$> l) ++ [ref n]))
          by (rewrite Hin; intuition congruence).
        case_bool_decide; [|done].
        destruct (entities s !! ref n); simpl; [by rewrite disable_idemp|done].
      * rewrite lookup_alter_ne by done. rewrite IH.
        erewrite bool_decide_ext; [reflexivity|]. rewrite Hin. intuition congruence.
Qed.

Lemma make_active_spec t cam prev l s :
  ∃ s', make_active t cam prev l s = Normal s'
    ∧ next_ref s' = next_ref s
    ∧ children s' = children s
    ∧ sceneEl_camera s' = Some cam
    ∧ listeners s' = listeners s
    ∧ emitted s' = emitted s ++ [mkEvent "camera-set-active" t]
    ∧ timeouts s' = timeouts s
    ∧ activeCameraEl s' = Some t
    ∧ ∀ r, entities s' !! r =
        if bool_decide (r ≠ t ∧ r ∈ ref <$> l)
        then disable <$> store_before_loop t prev (entities s) !! r
        else store_before_loop t prev (entities s) !! r.
Proof.
  unfold make_active. eexists. split; [reflexivity|].
  set (s0 := match prev with
             | Some p => setAttribute_camera_active p false _
             | None => _
             end).
  destruct (loop_frame t l s0) as (Hn & Hc & Hcam & Hl & He & Ht & Ha).
  assert (Hs0 : next_ref s0 = next_ref s ∧ children s0 = children s
                ∧ sceneEl_camera s0 = Some cam ∧ listeners s0 = listeners s
                ∧ emitted s0 = emitted s ∧ timeouts s0 = timeouts s
                ∧ activeCameraEl s0 = Some t
                ∧ entities s0 = store_before_loop t prev (entities s)).
  { unfold s0, store_before_loop. by destruct prev. }
  destruct Hs0 as (Hn0 & Hc0 & Hcam0 & Hl0 & He0 & Ht0 & Ha0 & Hent0).
  simpl. rewrite Hn, Hc, Hcam, Hl, He, Ht, Ha. split_and!; try done.
  - by rewrite He0.
  - intros r. by rewrite loop_lookup, Hent0.
Qed.

(** [setActiveCamera] past its guard: it throws before any write (the marked
    element is not a child of the scene), or it returns in a switched state. *)
Lemma setActiveCamera_spec t s cam :
  getObject3D_camera t s = Some cam →
  activeCameraEl s ≠ Some t →
  (setActiveCamera t s = Throw NotFoundError s
   ∧ is_Some (sceneEl_camera s)
   ∧ ∃ d, querySelector (children s) sel_default_camera s = Some d
          ∧ ref d ∉ ref <$> children s)
  ∨ ∃ s', setActiveCamera t s = Normal s' ∧ switched t cam s s'.
Proof.
  intros Hc Ha. rewrite (setActiveCamera_unfold t s cam Hc Ha).
  set (l := querySelectorAll (children s) sel_camera s).
  pose proof (default_camera_step_cases t s) as Hcases. simpl in Hcases.
  destruct Hcases as [[-> ?] | [-> | (d & Hq & Hsc & Hd & Hin & ->)]].
  - by left.
  - right. simpl.
    destruct (make_active_spec t cam (activeCameraEl s) l s)
      as (s' & -> & ? & ? & ? & ? & ? & ? & ? & ?).
    exists s'. split; [done|]. constructor; auto.
  - right. simpl.
    destruct (make_active_spec t cam (activeCameraEl s) l
                (set_children (filter (λ n, ref n ≠ ref d)) s))
      as (s' & -> & ? & Hch & ? & ? & ? & ? & ? & ?).
    exists s'. split; [done|]. constructor; auto.
    right. exists d. by rewrite Hch.
Qed.

Lemma store_target t prev m :
  prev ≠ Some t →
  store_before_loop t prev m !! t = with_isPlaying true <$> m !! t.
Proof.
  intros Hp. unfold store_before_loop. destruct prev as [p|].
  - rewrite lookup_alter_ne by congruence. apply lookup_alter_eq.
  - apply lookup_alter_eq.
Qed.

Lemma store_other t prev m r :
  r ≠ t →
  store_before_loop t prev m !! r =
    if bool_decide (prev = Some r)
    then with_camera (mkCameraData false) <$> m !! r else m !! r.
Proof.
  intros Hr. unfold store_before_loop. destruct prev as [p|].
  - case_bool_decide as Hp.
    + simplify_eq. by rewrite lookup_alter_eq, lookup_alter_ne.
    + rewrite !lookup_alter_ne; congruence.
  - rewrite bool_decide_false by done. by rewrite lookup_alter_ne.
Qed.

(** The target keeps all its attributes through a switch; only [play] has
    touched it. *)
Lemma switched_target t cam s s' :
  activeCameraEl s ≠ Some t → switched t cam s s' →
  entities s' !! t = with_isPlaying true <$> entities s !! t.
Proof.
  intros Ha Hsw. rewrite (sw_entities _ _ _ _ Hsw).
  rewrite bool_decide_false by (intros [? _]; done).
  by apply store_target.
Qed.

Lemma store_before_loop_marker t prev (m : gmap nat Entity) r :
  default_camera_attr <$> store_before_loop t prev m !! r
  = default_camera_attr <$> m !! r.
Proof.
  unfold store_before_loop. destruct prev as [p|].
  - destruct (decide (p = r)) as [->|]; destruct (decide (t = r)) as [->|];
      rewrite ?lookup_alter_eq, ?lookup_alter_ne by done;
      rewrite ?lookup_alter_eq, ?lookup_alter_ne by done;
      by destruct (m !! r).
  - destruct (decide (t = r)) as [->|];
      rewrite ?lookup_alter_eq, ?lookup_alter_ne by done;
      by destruct (m !! r).
Qed.

Lemma disable_store_marker t prev (m : gmap nat Entity) r (b : bool) :
  default_camera_attr <$>
    (if b then disable <$> store_before_loop t prev m !! r
     else store_before_loop t prev m !! r)
  = default_camera_attr <$> m !! r.
Proof.
  rewrite <- (store_before_loop_marker t prev m r).
  destruct b; [|done]. by destruct (store_before_loop t prev m !! r).
Qed.

Lemma switched_target_active t cam s s' :
  activeCameraEl s ≠ Some t → switched t cam s s' →
  camera_active t s' = camera_active t s.
Proof.
  intros Ha Hsw. unfold camera_active.
  rewrite (switched_target _ _ _ _ Ha Hsw).
  by destruct (entities s !! t).
Qed.

(** No write of a switch touches the marker attribute. *)
Lemma switched_marker t cam s s' r :
  switched t cam s s' →
  default_camera_attr <$> entities s' !! r = default_camera_attr <$> entities s !! r.
Proof.
  intros Hsw. rewrite (sw_entities _ _ _ _ Hsw). apply disable_store_marker.
Qed.

(** C9. [setActiveCamera] never writes the [camera] attribute of its target:
    whatever the call does, the target's [camera] block, and so its [active]
    sub-field, is afterwards what it was before. *)
Theorem setActiveCamera_keeps_target_camera (newCameraEl : nat) (s : State) :
  camera <$> entities (state_of (setActiveCamera newCameraEl s)) !! newCameraEl
  = camera <$> entities s !! newCameraEl
  ∧ camera_active newCameraEl (state_of (setActiveCamera newCameraEl s))
    = camera_active newCameraEl s.
Proof.
  destruct (setActiveCamera_guard_cases newCameraEl s) as [-> | (cam & Hc & Ha)];
    [done|].
  destruct (setActiveCamera_spec newCameraEl s cam Hc Ha)
    as [[-> _] | (s' & -> & Hsw)]; [done|].
  simpl. split.
  - rewrite (switched_target _ _ _ _ Ha Hsw).
    by destruct (entities s !! newCameraEl).
  - by apply (switched_target_active _ cam).
Qed.

Lemma elem_of_descendants n roots :
  n ∈ descendants roots ↔ ∃ a, a ∈ roots ∧ n ∈ subtrees a.
Proof.
  unfold descendants. setoid_rewrite list_elem_of_In. apply in_flat_map.
Qed.

Lemma descendants_filter (P : Node → Prop) `{∀ n, Decision (P n)} n roots :
  n ∈ descendants (filter P roots) → n ∈ descendants roots.
Proof.
  rewrite !elem_of_descendants. intros (a & Ha & Hn).
  apply list_elem_of_filter in Ha as [_ Ha]. eauto.
Qed.

Lemma switched_descendants t cam s s' n :
  switched t cam s s' →
  n ∈ descendants (children s') → n ∈ descendants (children s).
Proof.
  intros Hsw. destruct (sw_children _ _ _ _ Hsw) as [-> | (d & _ & _ & _ & _ & ->)];
    [done|]. apply descendants_filter.
Qed.

Lemma elem_of_querySelectorAll n roots sel s :
  n ∈ querySelectorAll roots sel s ↔ n ∈ descendants roots ∧ matches sel s n = true.
Proof.
  unfold querySelectorAll. rewrite list_elem_of_filter.
  destruct (matches sel s n); simpl; intuition (done || discriminate).
Qed.

Lemma matches_camera_Some s n :
  matches sel_camera s n = true ↔
  ∃ e c, entities s !! ref n = Some e ∧ camera e = Some c.
Proof.
  unfold matches, sel_camera. destruct (entities s !! ref n) as [e|].
  - destruct (camera e) as [c|] eqn:Hc.
    + split; [eauto|done].
    + split; [done|]. intros (e' & c & ? & ?). by simplify_eq.
  - split; [done|]. by intros (e' & c & ? & ?).
Qed.

(** After a switch, every camera-capable entity that was in the scene before
    the call, or is in it afterwards, is inactive unless it is the target. *)
Lemma switched_others t cam s s' n :
  switched t cam s s' →
  ref n ≠ t →
  n ∈ querySelectorAll (children s) sel_camera s
  ∨ n ∈ querySelectorAll (children s') sel_camera s' →
  camera_active (ref n) s' = Some false.
Proof.
  intros Hsw Hr Hn. unfold camera_active.
  pose proof (sw_entities _ _ _ _ Hsw (ref n)) as He.
  pose proof (store_other t (activeCameraEl s) (entities s) (ref n) Hr) as Hst.
  assert (Hd : n ∈ descendants (children s)).
  { destruct Hn as [Hn|Hn]; apply elem_of_querySelectorAll in Hn as [Hd _];
      [done|]. by apply (switched_descendants _ _ _ _ _ Hsw). }
  destruct (matches sel_camera s n) eqn:Hm.
  - rewrite bool_decide_true in He.
    2:{ split; [done|]. apply list_elem_of_fmap. exists n. split; [done|].
        by apply elem_of_querySelectorAll. }
    apply matches_camera_Some in Hm as (e & c & Hl & _).
    rewrite Hl in Hst. rewrite He, Hst. by case_bool_decide.
  - destruct Hn as [Hn|Hn]; apply elem_of_querySelectorAll in Hn as [_ Hm'];
      [congruence|].
    apply matches_camera_Some in Hm' as (e' & c' & Hl' & Hc').
    rewrite bool_decide_false in He.
    2:{ intros [_ Hx]. apply list_elem_of_fmap in Hx as (n' & Hrn & Hn').
        apply elem_of_querySelectorAll in Hn' as [_ Hm'].
        unfold matches in *. rewrite Hrn in Hm. congruence. }
    rewrite He, Hst in Hl'. rewrite He, Hst.
    case_bool_decide.
    + by destruct (entities s !! ref n).
    + assert (matches sel_camera s n = true); [|congruence].
      apply matches_camera_Some. eauto.
Qed.

(** C10. While [sceneEl.camera] is unset, [removeDefaultCamera] returns at
    once, whatever [this] is; so a call of [setActiveCamera] in that state
    returns with the children of the scene, the element found by the marker
    and the registered listeners all as before. *)
Theorem removeDefaultCamera_without_scene_camera (newCameraEl : nat) (s : State) :
  sceneEl_camera s = None →
  (∀ this, removeDefaultCamera this s = Normal s)
  ∧ ∃ s', setActiveCamera newCameraEl s = Normal s'
      ∧ children s' = children s
      ∧ listeners s' = listeners s
      ∧ querySelector (children s') sel_default_camera s'
        = querySelector (children s) sel_default_camera s.
Proof.
  intros Hsc. split.
  { intros this. unfold removeDefaultCamera. by rewrite Hsc. }
  destruct (setActiveCamera_guard_cases newCameraEl s) as [-> | (cam & Hc & Ha)].
  { by exists s. }
  destruct (setActiveCamera_spec newCameraEl s cam Hc Ha)
    as [(_ & [? Hx] & _) | (s' & -> & Hsw)]; [congruence|].
  exists s'. split; [done|].
  assert (Hch : children s' = children s).
  { destruct (sw_children _ _ _ _ Hsw) as [?|(d & _ & [? Hx] & _)];
      [done|congruence]. }
  split_and!; [done|apply (sw_listeners _ _ _ _ Hsw)|].
  rewrite Hch. apply querySelector_ext. intros r.
  apply (switched_marker _ _ _ _ r Hsw).
Qed.

Lemma removeDefaultCamera_without_scene_camera_witness :
  (∀ this, removeDefaultCamera this default_and_author_scene
           = Normal default_and_author_scene)
  ∧ ∃ s', setActiveCamera 1 default_and_author_scene = Normal s'
      ∧ children s' = children default_and_author_scene
      ∧ listeners s' = listeners default_and_author_scene
      ∧ querySelector (children s') sel_default_camera s'
        = querySelector (children default_and_author_scene) sel_default_camera
            default_and_author_scene.
Proof.
  apply removeDefaultCamera_without_scene_camera. vm_compute. reflexivity.
Defined.

(** C1, as amended.  Take a target with a realized camera object that is not
    already the active camera and whose own [active] is already true (the
    call does not set it), and let the call return with the target still an
    element of the scene.  Then [sceneEl.camera] is the target's camera
    object and [activeCameraEl] the target; the target is one of the
    camera-capable entities of the scene and its [active] is true; and every
    other camera-capable entity of the scene, after the call as before it,
    has [active] false. *)
Theorem setActiveCamera_single_active
    (newCameraEl : nat) (s s' : State) (newCamera : Object3D) (target : Node) :
  getObject3D_camera newCameraEl s = Some newCamera →
  activeCameraEl s ≠ Some newCameraEl →
  camera_active newCameraEl s = Some true →
  setActiveCamera newCameraEl s = Normal s' →
  target ∈ descendants (children s') →
  ref target = newCameraEl →
  sceneEl_camera s' = Some newCamera
  ∧ activeCameraEl s' = Some newCameraEl
  ∧ target ∈ querySelectorAll (children s') sel_camera s'
  ∧ camera_active newCameraEl s' = Some true
  ∧ (∀ n, n ∈ querySelectorAll (children s') sel_camera s' →
          (camera_active (ref n) s' = Some true ↔ ref n = newCameraEl))
  ∧ (∀ n, n ∈ querySelectorAll (children s) sel_camera s →
          ref n ≠ newCameraEl → camera_active (ref n) s' = Some false).
Proof.
  intros Hc Ha Hact Hret Hin Href.
  destruct (setActiveCamera_spec newCameraEl s newCamera Hc Ha)
    as [(Hthrow & _) | (s'' & Hret' & Hsw)]; [congruence|].
  assert (s'' = s') as -> by congruence.
  assert (Htarget : camera_active newCameraEl s' = Some true).
  { by rewrite (switched_target_active _ _ _ _ Ha Hsw). }
  split_and!; try done.
  - apply (sw_sceneEl_camera _ _ _ _ Hsw).
  - apply (sw_activeCameraEl _ _ _ _ Hsw).
  - apply elem_of_querySelectorAll. split; [done|].
    apply matches_camera_Some. rewrite Href.
    unfold camera_active in Htarget.
    destruct (entities s' !! newCameraEl) as [e|]; [|done].
    simpl in Htarget. destruct (camera e) as [c|] eqn:Hce; [|done].
    by exists e, c.
  - intros n Hn. split.
    + intros Ht. destruct (decide (ref n = newCameraEl)) as [|Hne]; [done|].
      rewrite (switched_others _ _ _ _ n Hsw Hne) in Ht by auto. discriminate.
    + by intros ->.
  - intros n Hn Hne. apply (switched_others _ _ _ _ n Hsw Hne). auto.
Qed.

Lemma setActiveCamera_single_active_witness :
  sceneEl_camera (state_of (setActiveCamera 1 default_active_and_author_scene))
  = Some (mkObject3D 101 1)
  ∧ activeCameraEl (state_of (setActiveCamera 1 default_active_and_author_scene))
    = Some 1
  ∧ node 1 [] ∈ querySelectorAll
      (children (state_of (setActiveCamera 1 default_active_and_author_scene)))
      sel_camera (state_of (setActiveCamera 1 default_active_and_author_scene))
  ∧ camera_active 1
      (state_of (setActiveCamera 1 default_active_and_author_scene)) = Some true
  ∧ (∀ n, n ∈ querySelectorAll
               (children (state_of (setActiveCamera 1
                                      default_active_and_author_scene)))
               sel_camera
               (state_of (setActiveCamera 1 default_active_and_author_scene)) →
          (camera_active (ref n)
             (state_of (setActiveCamera 1 default_active_and_author_scene))
           = Some true ↔ ref n = 1))
  ∧ (∀ n, n ∈ querySelectorAll (children default_active_and_author_scene)
               sel_camera default_active_and_author_scene →
          ref n ≠ 1 →
          camera_active (ref n)
            (state_of (setActiveCamera 1 default_active_and_author_scene))
          = Some false).
Proof.
  apply (setActiveCamera_single_active 1 default_active_and_author_scene
           (state_of (setActiveCamera 1 default_active_and_author_scene))
           (mkObject3D 101 1) (node 1 [])).
  - vm_compute. reflexivity.
  - vm_compute. discriminate.
  - vm_compute. reflexivity.
  - vm_compute. reflexivity.
  - vm_compute. apply list_elem_of_here.
  - reflexivity.
Defined.

(** C1 as stated fails: the target of this call has a realized camera
    object and was not the active camera, yet after the call its [active] is
    false and no camera-capable entity of the scene has [active] true. *)
Lemma setActiveCamera_inactive_target_counterexample :
  getObject3D_camera 1 (one_camera_scene false) = Some (mkObject3D 101 1)
  ∧ activeCameraEl (one_camera_scene false) ≠ Some 1
  ∧ ∃ s', setActiveCamera 1 (one_camera_scene false) = Normal s'
      ∧ sceneEl_camera s' = Some (mkObject3D 101 1)
      ∧ camera_active 1 s' = Some false
      ∧ ∀ n, n ∈ querySelectorAll (children s') sel_camera s' →
             camera_active (ref n) s' ≠ Some true.
Proof.
  split_and!; [by vm_compute|by vm_compute|].
  eexists. split; [by vm_compute|]. split_and!; [by vm_compute|by vm_compute|].
  intros n Hn. vm_compute in Hn.
  apply list_elem_of_singleton in Hn as ->. by vm_compute.
Qed.

(** ** What the operations leave alone *)

Lemma quiet_refl s : quiet s s.
Proof. by constructor. Qed.

Lemma quiet_trans s1 s2 s3 : quiet s1 s2 → quiet s2 s3 → quiet s1 s3.
Proof.
  intros [Ht Hr Hm Hd] [Ht' Hr' Hm' Hd']. constructor.
  - congruence.
  - congruence.
  - intros r. by rewrite Hm'.
  - auto.
Qed.

(** A write into the attribute store that keeps markers is quiet. *)
Lemma quiet_alter (f : Entity → Entity) r s :
  (∀ e, default_camera_attr (f e) = default_camera_attr e) →
  quiet s (set_entities (alter f r) s).
Proof.
  intros Hf. constructor; try done.
  intros r'. by apply sel_alter.
Qed.

Lemma quiet_removeDefaultOffset s : quiet s (removeDefaultOffset s).
Proof.
  unfold removeDefaultOffset.
  destruct (querySelector _ _ _); [|apply quiet_refl].
  destruct (getAttribute_position _ _); [|apply quiet_refl].
  by apply quiet_alter.
Qed.

Lemma quiet_addDefaultOffset s : quiet s (addDefaultOffset s).
Proof.
  unfold addDefaultOffset.
  destruct (querySelector _ _ _); [|apply quiet_refl].
  destruct (getAttribute_position _ _); [|apply quiet_refl].
  by apply quiet_alter.
Qed.

Lemma quiet_call_handler h s : quiet s (call_handler h s).
Proof. destruct h; [apply quiet_removeDefaultOffset|apply quiet_addDefaultOffset]. Qed.

Lemma quiet_dispatchEvent type s : quiet s (dispatchEvent type s).
Proof.
  unfold dispatchEvent. generalize (listeners s) as ls.
  intros ls. revert s. induction ls as [|l ls IH]; intros s; [apply quiet_refl|].
  simpl. eapply quiet_trans; [|apply IH].
  case_bool_decide; [apply quiet_call_handler|apply quiet_refl].
Qed.

Lemma quiet_disableActiveCamera s : quiet s (state_of (disableActiveCamera s)).
Proof.
  unfold disableActiveCamera. destruct (item _ _); [|apply quiet_refl].
  by apply quiet_alter.
Qed.

Lemma ready_events_snoc_other l e :
  name e ≠ "camera-ready" →
  filter (λ e, name e = "camera-ready") (l ++ [e])
  = filter (λ e, name e = "camera-ready") l.
Proof.
  intros Hne. rewrite list.filter_app, filter_cons_False by done.
  by rewrite filter_nil, app_nil_r.
Qed.

Lemma quiet_switched t cam s s' : switched t cam s s' → quiet s s'.
Proof.
  intros Hsw. constructor.
  - apply (sw_timeouts _ _ _ _ Hsw).
  - unfold ready_events. rewrite (sw_emitted _ _ _ _ Hsw).
    by apply ready_events_snoc_other.
  - intros r. apply (switched_marker _ _ _ _ r Hsw).
  - intros n. apply (switched_descendants _ _ _ _ n Hsw).
Qed.

Lemma quiet_setActiveCamera t s : quiet s (state_of (setActiveCamera t s)).
Proof.
  destruct (setActiveCamera_guard_cases t s) as [-> | (cam & Hc & Ha)];
    [apply quiet_refl|].
  destruct (setActiveCamera_spec t s cam Hc Ha) as [[-> _] | (s' & -> & Hsw)];
    [apply quiet_refl|]. by apply (quiet_switched t cam).
Qed.

(** The timer with nothing pending does nothing. *)
Lemma tick_idle s : timeouts s = [] → tick s = s.
Proof. intros H. unfold tick. by rewrite H. Qed.

Lemma quiet_step s o : o ≠ op_tick ∨ timeouts s = [] → quiet s (step s o).
Proof.
  intros H. destruct o; simpl.
  - destruct H as [?|H]; [done|]. rewrite tick_idle by done. apply quiet_refl.
  - apply quiet_dispatchEvent.
  - apply quiet_addDefaultOffset.
  - apply quiet_removeDefaultOffset.
  - apply quiet_disableActiveCamera.
  - apply quiet_setActiveCamera.
Qed.

Lemma quiet_run ops s :
  op_tick ∉ ops ∨ timeouts s = [] → quiet s (run ops s).
Proof.
  revert s. induction ops as [|o ops IH]; intros s H; [apply quiet_refl|].
  unfold run. simpl.
  assert (Hstep : quiet s (step s o)).
  { apply quiet_step. destruct H as [H|H]; [left|by right].
    intros ->. apply H, list_elem_of_here. }
  eapply quiet_trans; [exact Hstep|]. apply IH.
  destruct H as [H|H]; [left|right].
  - intros Hin. apply H. by apply list_elem_of_further.
  - by rewrite (q_timeouts _ _ Hstep).
Qed.

Lemma run_app ops1 ops2 s : run (ops1 ++ ops2) s = run ops2 (run ops1 s).
Proof. apply foldl_app. Qed.

(** ** The deferred check and [camera-ready] *)

Lemma checkForCamera_emitted s :
  emitted (checkForCamera s) = emitted s ++ [mkEvent "camera-ready" (ready_payload s)]
  ∧ timeouts (checkForCamera s) = timeouts s.
Proof. unfold checkForCamera, ready_payload. by destruct (sceneEl_camera s). Qed.

Lemma checkForCamera_creates s :
  sceneEl_camera s = None →
  entities (checkForCamera s) !! next_ref s = Some default_camera_entity
  ∧ children (checkForCamera s) = children s ++ [node (next_ref s) []].
Proof.
  intros H. unfold checkForCamera. rewrite H. simpl. split; [|done].
  by rewrite !lookup_alter_eq, lookup_insert_eq.
Qed.

Lemma tick_checkForCamera s :
  timeouts s = [checkForCamera_task] →
  tick s = checkForCamera (set_timeouts (λ _, []) s).
Proof. intros H. unfold tick. by rewrite H. Qed.

(** C8. Start the system on a host with no pending timer, and let the timer
    fire after any operations [before] and be followed by any operations
    [after].  No [camera-ready] is emitted before the timer fires, and over
    the whole run exactly one is: its payload is the owner of the camera the
    host reports when the timer fires, or else the default camera created at
    that moment (a new element with the marker, appended to the scene). *)
Theorem camera_ready_once (host : State) (before after : list Op) :
  timeouts host = [] →
  op_tick ∉ before →
  ready_events (run before (init host)) = ready_events host
  ∧ ready_events (run (before ++ op_tick :: after) (init host))
    = ready_events host
      ++ [mkEvent "camera-ready" (ready_payload (run before (init host)))]
  ∧ (sceneEl_camera (run before (init host)) = None →
     entities (tick (run before (init host))) !! next_ref (run before (init host))
     = Some default_camera_entity
     ∧ children (tick (run before (init host)))
       = children (run before (init host))
         ++ [node (next_ref (run before (init host))) []]).
Proof.
  intros Hidle Hbefore.
  set (s1 := run before (init host)).
  assert (Hq1 : quiet (init host) s1) by (apply quiet_run; by left).
  assert (Ht1 : timeouts s1 = [checkForCamera_task]).
  { rewrite (q_timeouts _ _ Hq1). simpl. by rewrite Hidle. }
  assert (Hr1 : ready_events s1 = ready_events host) by apply (q_ready _ _ Hq1).
  pose proof (tick_checkForCamera s1 Ht1) as Htick.
  destruct (checkForCamera_emitted (set_timeouts (λ _, []) s1)) as [Hem Hto].
  split_and!; [done| |].
  - rewrite run_app. fold s1.
    change (run (op_tick :: after) s1) with (run after (tick s1)).
    assert (Hq2 : quiet (tick s1) (run after (tick s1))).
    { apply quiet_run. right. by rewrite Htick, Hto. }
    rewrite (q_ready _ _ Hq2), <- Hr1. unfold ready_events at 1.
    rewrite Htick, Hem. simpl.
    rewrite list.filter_app, filter_cons_True by done. by rewrite filter_nil.
  - intros Hsc. rewrite Htick.
    by apply (checkForCamera_creates (set_timeouts (λ _, []) s1)).
Qed.

Lemma camera_ready_once_witness :
  ready_events
    (run ([op_dispatchEvent "enter-vr"] ++ op_tick :: [op_setActiveCamera 1; op_tick])
         (init (one_camera_scene true)))
  = ready_events (one_camera_scene true)
    ++ [mkEvent "camera-ready"
          (ready_payload (run [op_dispatchEvent "enter-vr"]
                               (init (one_camera_scene true))))].
Proof.
  assert (Hidle : timeouts (one_camera_scene true) = []) by reflexivity.
  assert (Hbefore : op_tick ∉ [op_dispatchEvent "enter-vr"]).
  { intros H. apply list_elem_of_singleton in H. discriminate. }
  exact (proj1 (proj2 (camera_ready_once (one_camera_scene true)
                         [op_dispatchEvent "enter-vr"]
                         [op_setActiveCamera 1; op_tick] Hidle Hbefore))).
Defined.

(** ** The offset on entering and leaving VR *)

Lemma removeDefaultOffset_listeners s : listeners (removeDefaultOffset s) = listeners s.
Proof.
  unfold removeDefaultOffset. destruct (querySelector _ _ _); [|done].
  by destruct (getAttribute_position _ _).
Qed.

Lemma addDefaultOffset_listeners s : listeners (addDefaultOffset s) = listeners s.
Proof.
  unfold addDefaultOffset. destruct (querySelector _ _ _); [|done].
  by destruct (getAttribute_position _ _).
Qed.

Lemma setAttribute_position_other r p s r' :
  r' ≠ r → entities (setAttribute_position r p s) !! r' = entities s !! r'.
Proof. intros H. simpl. by rewrite lookup_alter_ne. Qed.

(** C3, as amended.  With the listeners registered for the default camera,
    entering VR runs [removeDefaultOffset] and leaving VR runs
    [addDefaultOffset]: the position of the element carrying the marker is
    translated by -(0, 1.8, 4) on enter-vr and by +(0, 1.8, 4) on exit-vr,
    component by component in binary64, so that exit-vr after enter-vr
    leaves it at (p - d) + d; no other element is written; and with no marked
    element in the scene nothing changes. *)
Theorem vr_offset (s : State) :
  listeners s = default_listeners →
  dispatchEvent "enter-vr" s = removeDefaultOffset s
  ∧ dispatchEvent "exit-vr" s = addDefaultOffset s
  ∧ match querySelector (children s) sel_default_camera s with
    | Some d =>
        ∃ p, getAttribute_position (ref d) s = Some p
          ∧ getAttribute_position (ref d) (dispatchEvent "enter-vr" s)
            = Some (vec_sub p DEFAULT_CAMERA_POSITION)
          ∧ getAttribute_position (ref d) (dispatchEvent "exit-vr" s)
            = Some (vec_add p DEFAULT_CAMERA_POSITION)
          ∧ getAttribute_position (ref d)
              (dispatchEvent "exit-vr" (dispatchEvent "enter-vr" s))
            = Some (vec_add (vec_sub p DEFAULT_CAMERA_POSITION)
                      DEFAULT_CAMERA_POSITION)
          ∧ ∀ r, r ≠ ref d →
              entities (dispatchEvent "enter-vr" s) !! r = entities s !! r
              ∧ entities (dispatchEvent "exit-vr" s) !! r = entities s !! r
    | None => dispatchEvent "enter-vr" s = s ∧ dispatchEvent "exit-vr" s = s
    end.
Proof.
  intros Hl.
  assert (Henter : ∀ s0, listeners s0 = default_listeners →
                         dispatchEvent "enter-vr" s0 = removeDefaultOffset s0).
  { intros s0 H0. unfold dispatchEvent. by rewrite H0. }
  assert (Hexit : ∀ s0, listeners s0 = default_listeners →
                        dispatchEvent "exit-vr" s0 = addDefaultOffset s0).
  { intros s0 H0. unfold dispatchEvent. by rewrite H0. }
  rewrite (Henter s Hl), (Hexit s Hl).
  rewrite Hexit by (by rewrite removeDefaultOffset_listeners).
  split_and!; try done.
  destruct (querySelector (children s) sel_default_camera s) as [d|] eqn:Hq.
  - destruct (querySelector_in_scene _ _ _ _ Hq) as (_ & e & He & _).
    assert (Hp : getAttribute_position (ref d) s = Some (position e))
      by (unfold getAttribute_position; by rewrite He).
    destruct (removeDefaultOffset_step s d _ Hq Hp) as [Hq1 Hp1].
    destruct (addDefaultOffset_step _ d _ Hq1 Hp1) as [_ Hp2].
    destruct (addDefaultOffset_step s d _ Hq Hp) as [_ Hp3].
    exists (position e). split_and!; try done.
    intros r Hr.
    rewrite (removeDefaultOffset_found s d e Hq He),
      (addDefaultOffset_found s d e Hq He).
    by rewrite !setAttribute_position_other.
  - by rewrite removeDefaultOffset_absent, addDefaultOffset_absent.
Qed.

Lemma vr_offset_witness :
  dispatchEvent "enter-vr" default_scene = removeDefaultOffset default_scene
  ∧ dispatchEvent "exit-vr" default_scene = addDefaultOffset default_scene.
Proof.
  assert (Hl : listeners default_scene = default_listeners)
    by (vm_compute; reflexivity).
  exact (conj (proj1 (vr_offset default_scene Hl))
              (proj1 (proj2 (vr_offset default_scene Hl)))).
Defined.

(** C3 as stated fails on the direction: in the scene with the injected
    default camera at (0, 1.8, 4), enter-vr leaves it at (0, 0, 0), not at
    (0, 3.6, 8), and exit-vr moves it to (0, 3.6, 8), not to (0, 0, 0). *)
Lemma vr_offset_direction_counterexample :
  getAttribute_position 0 default_scene = Some (vec 0 1.8 4)
  ∧ getAttribute_position 0 (dispatchEvent "enter-vr" default_scene)
    = Some (vec 0 0 0)
  ∧ getAttribute_position 0 (dispatchEvent "enter-vr" default_scene)
    ≠ Some (vec 0 3.6 8)
  ∧ getAttribute_position 0 (dispatchEvent "exit-vr" default_scene)
    = Some (vec 0 3.6 8)
  ∧ getAttribute_position 0 (dispatchEvent "exit-vr" default_scene)
    ≠ Some (vec 0 0 0).
Proof.
  split_and!; try (vm_compute; reflexivity).
  - intros H.
    apply (f_equal (λ o, match o with
                         | Some v => PrimFloat.eqb (y v) 3.6
                         | None => false
                         end)) in H.
    vm_compute in H. discriminate.
  - intros H.
    apply (f_equal (λ o, match o with
                         | Some v => PrimFloat.eqb (y v) 0
                         | None => false
                         end)) in H.
    vm_compute in H. discriminate.
Qed.

(** ** Removal of the default camera *)

Lemma subtrees_self n : n ∈ subtrees n.
Proof. destruct n. simpl. apply list_elem_of_here. Qed.

Lemma descendants_cons a l : descendants (a :: l) = subtrees a ++ descendants l.
Proof. reflexivity. Qed.

Lemma filter_nil_incl {A} (P : A → Prop) `{∀ a, Decision (P a)} (l1 l2 : list A) :
  (∀ a, a ∈ l1 → a ∈ l2) → filter P l2 = [] → filter P l1 = [].
Proof.
  intros Hincl H2. destruct (filter P l1) as [|a l] eqn:H1; [done|].
  assert (Ha : a ∈ filter P l1) by (rewrite H1; apply list_elem_of_here).
  apply list_elem_of_filter in Ha as [HP Ha].
  exfalso. by apply (filter_nil_not_elem_of P l2 a H2 HP), Hincl.
Qed.

(** If the scene holds exactly one match [d] of a selector and [d] is a child
    of the scene, nothing matches once that child is taken out. *)
Lemma filter_descendants_remove (M : Node → bool) d l :
  (∀ n n', ref n = ref n' → M n = M n') →
  filter (λ n, Is_true (M n)) (descendants l) = [d] →
  ref d ∈ ref <$> l →
  filter (λ n, Is_true (M n)) (descendants (filter (λ n, ref n ≠ ref d) l)) = [].
Proof.
  intros Href. induction l as [|a l IH]; intros Hf Hin.
  { by apply elem_of_nil in Hin. }
  assert (HMd : M d = true).
  { assert (Hd : d ∈ filter (λ n, Is_true (M n)) (descendants (a :: l)))
      by (rewrite Hf; apply list_elem_of_here).
    apply list_elem_of_filter in Hd as [Hd _]. by destruct (M d). }
  rewrite descendants_cons, list.filter_app in Hf.
  destruct (decide (ref a = ref d)) as [Ha|Ha].
  - rewrite filter_cons_False by (intros Hx; by apply Hx).
    destruct a as [r ks]. simpl in Hf.
    rewrite filter_cons_True in Hf
      by (rewrite (Href (node r ks) d Ha), HMd; done).
    simpl in Hf. injection Hf as _ Hf. apply app_eq_nil in Hf as [_ Hf].
    apply (filter_nil_incl _ _ (descendants l)); [|done].
    intros n. apply descendants_filter.
  - rewrite filter_cons_True by done.
    rewrite descendants_cons, list.filter_app.
    assert (Hin' : ref d ∈ ref <$> l).
    { rewrite fmap_cons in Hin. apply elem_of_cons in Hin as [?|?]; [congruence|done]. }
    assert (Hne : filter (λ n, Is_true (M n)) (descendants l) ≠ []).
    { apply list_elem_of_fmap in Hin' as (n0 & Hr0 & Hn0). intros Hnil.
      apply (filter_nil_not_elem_of _ _ n0 Hnil).
      - rewrite (Href n0 d) by done. by rewrite HMd.
      - apply elem_of_descendants. exists n0. split; [done|apply subtrees_self]. }
    apply app_eq_unit in Hf as [[Ha0 Hl]|[_ Hl]]; [|done].
    rewrite Ha0, (IH Hl Hin'). done.
Qed.

Lemma no_default_preserved s s' :
  (∀ r, default_camera_attr <$> entities s' !! r
        = default_camera_attr <$> entities s !! r) →
  (∀ n, n ∈ descendants (children s') → n ∈ descendants (children s)) →
  querySelectorAll (children s) sel_default_camera s = [] →
  querySelectorAll (children s') sel_default_camera s' = [].
Proof.
  intros Hm Hd H. unfold querySelectorAll in *.
  rewrite (list_filter_iff _ (λ n, Is_true (matches sel_default_camera s n))).
  - by apply (filter_nil_incl _ _ (descendants (children s))).
  - intros n. by rewrite (matches_ext sel_default_camera s s' n Hm).
Qed.

Lemma call_handler_sceneEl_camera h s :
  sceneEl_camera (call_handler h s) = sceneEl_camera s.
Proof.
  destruct h; simpl.
  - unfold removeDefaultOffset. destruct (querySelector _ _ _); [|done].
    by destruct (getAttribute_position _ _).
  - unfold addDefaultOffset. destruct (querySelector _ _ _); [|done].
    by destruct (getAttribute_position _ _).
Qed.

Lemma dispatchEvent_sceneEl_camera type s :
  sceneEl_camera (dispatchEvent type s) = sceneEl_camera s.
Proof.
  unfold dispatchEvent. generalize (listeners s) as ls.
  intros ls. revert s. induction ls as [|l ls IH]; intros s; [done|].
  simpl. rewrite IH. case_bool_decide; [|done]. apply call_handler_sceneEl_camera.
Qed.

(** Once [sceneEl.camera] is set, no operation unsets it. *)
Lemma step_sceneEl_camera s o :
  is_Some (sceneEl_camera s) → is_Some (sceneEl_camera (step s o)).
Proof.
  intros Hsc. destruct o; simpl.
  - unfold tick. destruct (timeouts s) as [|[] ts]; [done|].
    simpl. unfold checkForCamera. simpl. destruct Hsc as [c Hc].
    rewrite Hc. simpl. rewrite Hc. by eexists.
  - by rewrite dispatchEvent_sceneEl_camera.
  - by rewrite (call_handler_sceneEl_camera bound_addDefaultOffset).
  - by rewrite (call_handler_sceneEl_camera bound_removeDefaultOffset).
  - unfold disableActiveCamera. by destruct (item _ _).
  - destruct (setActiveCamera_guard_cases newCameraEl s) as [-> | (cam & Hc & Ha)];
      [done|].
    destruct (setActiveCamera_spec newCameraEl s cam Hc Ha)
      as [[-> _] | (s' & -> & Hsw)]; [done|].
    simpl. rewrite (sw_sceneEl_camera _ _ _ _ Hsw). by eexists.
Qed.

Lemma camera_kept_step s o :
  is_Some (sceneEl_camera s) → camera_kept s (step s o).
Proof.
  intros Hsc. pose proof (step_sceneEl_camera s o Hsc) as Hsc'.
  assert (Hgo : o ≠ op_tick → camera_kept s (step s o)).
  { intros Hne. assert (Hq : quiet s (step s o)) by (apply quiet_step; by left).
    constructor; [apply (q_marker _ _ Hq)|apply (q_descendants _ _ Hq)|done]. }
  destruct o; try (apply Hgo; discriminate).
  simpl in *. unfold tick in *. destruct (timeouts s) as [|[] ts].
  - by constructor.
  - simpl in *. unfold checkForCamera in *. simpl in *.
    destruct Hsc as [c Hc]. rewrite Hc in *. by constructor.
Qed.

Lemma camera_kept_run ops s :
  is_Some (sceneEl_camera s) → camera_kept s (run ops s).
Proof.
  revert s. induction ops as [|o ops IH]; intros s Hsc; [by constructor|].
  unfold run. simpl.
  destruct (camera_kept_step s o Hsc) as [Hm Hd Hc].
  destruct (IH (step s o) Hc) as [Hm' Hd' Hc'].
  constructor; [|auto|done]. intros r. by rewrite Hm'.
Qed.

(** A target that is neither the marked element nor below it is not the
    camera that [setActiveCamera] finds below the marked element. *)
Lemma not_below_marked t s d :
  querySelector (children s) sel_default_camera s = Some d →
  (∀ m, m ∈ subtrees d → ref m ≠ t) →
  Some t ≠ ref <$> defaultCameraEl_of s.
Proof.
  intros Hq Hout. unfold defaultCameraEl_of. rewrite Hq. simpl.
  destruct (querySelector (childNodes d) sel_camera s) as [c|] eqn:Hc; [|done].
  simpl. intros [= Heq]. apply querySelector_in_scene in Hc as [Hin _].
  apply (Hout c); [|done]. destruct d as [r ks]. simpl in *.
  by apply list_elem_of_further.
Qed.

(** No call of [setActiveCamera] changes the registered listeners: the two
    [removeEventListener] calls in [removeDefaultCamera] are handed
    [this.removeDefaultOffset] and [this.addDefaultOffset] of the global
    object, which are undefined. *)
Lemma setActiveCamera_keeps_listeners t s :
  listeners (state_of (setActiveCamera t s)) = listeners s.
Proof.
  destruct (setActiveCamera_guard_cases t s) as [-> | (cam & Hc & Ha)]; [done|].
  destruct (setActiveCamera_spec t s cam Hc Ha) as [[-> _] | (s' & -> & Hsw)];
    [done|]. apply (sw_listeners _ _ _ _ Hsw).
Qed.

(** C2, as amended.  Let a call of [setActiveCamera] get past its guard
    while [sceneEl.camera] is set, with a target that is neither the marked
    element nor below it, in a scene whose one marked element [d] is a child
    of the scene.  Then the call returns with [d] taken out of the children
    of the scene and no marked element left in it, and no later operation
    of the system, a pending deferred check included, puts a marked element
    back. *)
Theorem setActiveCamera_removes_default
    (newCameraEl : nat) (s : State) (newCamera : Object3D) (d : Node) :
  getObject3D_camera newCameraEl s = Some newCamera →
  activeCameraEl s ≠ Some newCameraEl →
  is_Some (sceneEl_camera s) →
  querySelectorAll (children s) sel_default_camera s = [d] →
  ref d ∈ ref <$> children s →
  (∀ m, m ∈ subtrees d → ref m ≠ newCameraEl) →
  ∃ s', setActiveCamera newCameraEl s = Normal s'
    ∧ children s' = filter (λ n, ref n ≠ ref d) (children s)
    ∧ (ref d ∉ ref <$> children s')
    ∧ querySelectorAll (children s') sel_default_camera s' = []
    ∧ (∀ ops, querySelectorAll (children (run ops s')) sel_default_camera
                (run ops s') = []).
Proof.
  intros Hc Ha Hsc Hone Hin Hout.
  assert (Hq : querySelector (children s) sel_default_camera s = Some d).
  { unfold querySelector. by rewrite Hone. }
  pose proof (not_below_marked newCameraEl s d Hq Hout) as Hnd.
  rewrite (setActiveCamera_unfold _ _ _ Hc Ha).
  rewrite (bool_decide_true _ Hnd).
  rewrite removeDefaultCamera_global, Hq. destruct Hsc as [c0 ->].
  unfold removeChild. rewrite bool_decide_true by done. simpl.
  destruct (make_active_spec newCameraEl newCamera (activeCameraEl s)
              (querySelectorAll (children s) sel_camera s)
              (set_children (filter (λ n, ref n ≠ ref d)) s))
    as (s' & -> & Hnr & Hch & Hcam & Hls & Hem & Hto & Hact & Hent).
  simpl in Hch.
  assert (Hmark : ∀ r, default_camera_attr <$> entities s' !! r
                       = default_camera_attr <$> entities s !! r).
  { intros r. rewrite Hent. apply disable_store_marker. }
  assert (Hgone : querySelectorAll (children s') sel_default_camera s' = []).
  { unfold querySelectorAll. rewrite Hch.
    rewrite (list_filter_iff _ (λ n, Is_true (matches sel_default_camera s n)))
      by (intros n; by rewrite (matches_ext sel_default_camera s s' n Hmark)).
    apply filter_descendants_remove; [|done|done].
    intros n n' Hr. unfold matches. by rewrite Hr. }
  exists s'. split_and!; try done.
  - rewrite Hch. intros Hx. apply list_elem_of_fmap in Hx as (n & Hr & Hn).
    apply list_elem_of_filter in Hn as [Hn _]. by apply Hn.
  - intros ops.
    assert (Hk : camera_kept s' (run ops s'))
      by (apply camera_kept_run; rewrite Hcam; by eexists).
    by apply (no_default_preserved s' _ (ck_marker _ _ Hk) (ck_descendants _ _ Hk)).
Qed.

Lemma setActiveCamera_removes_default_witness :
  ∃ s', setActiveCamera 1 default_active_and_author_scene = Normal s'
    ∧ children s' = filter (λ n, ref n ≠ ref (node 0 []))
                      (children default_active_and_author_scene)
    ∧ (ref (node 0 []) ∉ ref <$> children s')
    ∧ querySelectorAll (children s') sel_default_camera s' = []
    ∧ (∀ ops, querySelectorAll (children (run ops s')) sel_default_camera
                (run ops s') = []).
Proof.
  apply (setActiveCamera_removes_default 1 default_active_and_author_scene
           (mkObject3D 101 1) (node 0 [])).
  - vm_compute. reflexivity.
  - vm_compute. discriminate.
  - vm_compute. by eexists.
  - vm_compute. reflexivity.
  - vm_compute. apply list_elem_of_here.
  - intros m Hm. cbn in Hm. apply list_elem_of_singleton in Hm as ->.
    discriminate.
Defined.

(** C2 as stated fails.  In the first scene [sceneEl.camera] is unset: the
    call switches to the author's camera 1, which is not the default camera,
    and the default camera 0 is still in the scene afterwards.  In the second
    [sceneEl.camera] is set but the author's camera has no camera object
    yet: the call does nothing at all. *)
Lemma setActiveCamera_default_stays_counterexample :
  (Some 1 ≠ ref <$> defaultCameraEl_of default_and_author_scene
   ∧ querySelector (children default_and_author_scene) sel_default_camera
       default_and_author_scene = Some (node 0 [])
   ∧ ∃ s', setActiveCamera 1 default_and_author_scene = Normal s'
       ∧ activeCameraEl s' = Some 1
       ∧ querySelector (children s') sel_default_camera s' = Some (node 0 []))
  ∧ (Some 1 ≠ ref <$> defaultCameraEl_of default_active_and_unrealized_scene
     ∧ is_Some (sceneEl_camera default_active_and_unrealized_scene)
     ∧ querySelector (children default_active_and_unrealized_scene)
         sel_default_camera default_active_and_unrealized_scene = Some (node 0 [])
     ∧ setActiveCamera 1 default_active_and_unrealized_scene
       = Normal default_active_and_unrealized_scene).
Proof.
  split.
  - split_and!; [by vm_compute|by vm_compute|].
    eexists. split; [by vm_compute|]. split; by vm_compute.
  - split_and!; [by vm_compute|by eexists|by vm_compute|by vm_compute].
Qed.

(** The listeners outlive the default camera: after the switch to the
    author's camera the default camera is gone from the scene and both
    listeners are still registered. *)
Lemma listeners_survive_removal :
  listeners default_active_and_author_scene = default_listeners
  ∧ ∃ s', setActiveCamera 1 default_active_and_author_scene = Normal s'
      ∧ querySelectorAll (children s') sel_default_camera s' = []
      ∧ listeners s' = default_listeners.
Proof.
  split; [by vm_compute|]. eexists. split; [by vm_compute|]. split; by vm_compute.
Qed.

(** ** Further properties of [setActiveCamera] *)

Lemma make_active_Normal t cam prev l s :
  ∃ s', make_active t cam prev l s = Normal s'.
Proof. unfold make_active. by eexists. Qed.

(** X1. [setActiveCamera] throws in exactly one situation: the call is past
    its guard, the target is not the camera found below the marked element,
    [sceneEl.camera] is set, and the first marked element is not a child of
    the scene.  The exception is the [NotFoundError] of [removeChild], and
    nothing has been written when it is thrown. *)
Theorem setActiveCamera_throws_iff (newCameraEl : nat) (s : State) (e : Exn) (s' : State) :
  setActiveCamera newCameraEl s = Throw e s'
  ↔ e = NotFoundError ∧ s' = s
    ∧ is_Some (getObject3D_camera newCameraEl s)
    ∧ activeCameraEl s ≠ Some newCameraEl
    ∧ Some newCameraEl ≠ ref <$> defaultCameraEl_of s
    ∧ is_Some (sceneEl_camera s)
    ∧ ∃ d, querySelector (children s) sel_default_camera s = Some d
           ∧ ref d ∉ ref <$> children s.
Proof.
  split.
  - intros Hthrow.
    destruct (setActiveCamera_guard_cases newCameraEl s) as [Hn | (cam & Hc & Ha)];
      [congruence|].
    rewrite (setActiveCamera_unfold _ _ _ Hc Ha) in Hthrow.
    revert Hthrow. case_bool_decide as Hd.
    + rewrite removeDefaultCamera_global.
      destruct (sceneEl_camera s) as [c0|] eqn:Hsc.
      * destruct (querySelector (children s) sel_default_camera s) as [d|] eqn:Hq.
        -- unfold removeChild. case_bool_decide as Hin.
           ++ simpl. intros Hthrow.
              by destruct (make_active_Normal newCameraEl cam (activeCameraEl s)
                             (querySelectorAll (children s) sel_camera s)
                             (set_children (filter (λ n, ref n ≠ ref d)) s))
                as [s1 Hs1]; rewrite Hs1 in Hthrow.
           ++ simpl. intros [= <- <-]. split_and!; eauto.
        -- simpl. intros Hthrow.
           by destruct (make_active_Normal newCameraEl cam (activeCameraEl s)
                          (querySelectorAll (children s) sel_camera s) s)
             as [s1 Hs1]; rewrite Hs1 in Hthrow.
      * simpl. intros Hthrow.
        by destruct (make_active_Normal newCameraEl cam (activeCameraEl s)
                       (querySelectorAll (children s) sel_camera s) s)
          as [s1 Hs1]; rewrite Hs1 in Hthrow.
    + simpl. intros Hthrow.
      by destruct (make_active_Normal newCameraEl cam (activeCameraEl s)
                     (querySelectorAll (children s) sel_camera s) s)
        as [s1 Hs1]; rewrite Hs1 in Hthrow.
  - intros (-> & -> & [cam Hc] & Ha & Hd & [c0 Hsc] & d & Hq & Hin).
    rewrite (setActiveCamera_unfold _ _ _ Hc Ha).
    rewrite bool_decide_true by done.
    rewrite removeDefaultCamera_global, Hsc, Hq.
    unfold removeChild. by rewrite bool_decide_false.
Qed.

Lemma setActiveCamera_throws_iff_witness :
  setActiveCamera 1 nested_default_scene = Throw NotFoundError nested_default_scene.
Proof.
  apply (setActiveCamera_throws_iff 1 nested_default_scene NotFoundError
           nested_default_scene).
  split_and!.
  - reflexivity.
  - reflexivity.
  - exists (mkObject3D 101 1). vm_compute. reflexivity.
  - vm_compute. discriminate.
  - vm_compute. discriminate.
  - exists (mkObject3D 100 0). reflexivity.
  - exists (node 0 []). split; [vm_compute; reflexivity|].
    intros H. cbn in H. rewrite !elem_of_cons, elem_of_nil in H.
    destruct H as [H|[H|[]]]; discriminate.
Defined.

(** X2. Calling [setActiveCamera] a second time with the same target changes
    nothing: whatever the first call did (switch, return at the guard, or
    throw), the state after the second call is the state after the first. *)
Theorem setActiveCamera_twice_same_target (newCameraEl : nat) (s : State) :
  state_of (setActiveCamera newCameraEl (state_of (setActiveCamera newCameraEl s)))
  = state_of (setActiveCamera newCameraEl s).
Proof.
  destruct (setActiveCamera_guard_cases newCameraEl s) as [Hn | (cam & Hc & Ha)].
  { rewrite Hn. simpl. by rewrite Hn. }
  destruct (setActiveCamera_spec newCameraEl s cam Hc Ha)
    as [[Hthrow _] | (s' & Hret & Hsw)].
  - rewrite Hthrow. simpl. by rewrite Hthrow.
  - rewrite Hret. simpl.
    by rewrite (setActiveCamera_already_active _ _ (sw_activeCameraEl _ _ _ _ Hsw)).
Qed.

(** X3. When the target is the camera found below the marked element (a
    default camera built as a wrapper around its camera), [setActiveCamera]
    does not call [removeDefaultCamera]: the call returns with the target
    active and the children of the scene and the marked element as before,
    also when [sceneEl.camera] is set. *)
Theorem setActiveCamera_keeps_wrapped_default
    (newCameraEl : nat) (s : State) (newCamera : Object3D) :
  getObject3D_camera newCameraEl s = Some newCamera →
  activeCameraEl s ≠ Some newCameraEl →
  Some newCameraEl = ref <$> defaultCameraEl_of s →
  ∃ s', setActiveCamera newCameraEl s = Normal s'
    ∧ activeCameraEl s' = Some newCameraEl
    ∧ children s' = children s
    ∧ querySelector (children s') sel_default_camera s'
      = querySelector (children s) sel_default_camera s.
Proof.
  intros Hc Ha Hd.
  rewrite (setActiveCamera_unfold _ _ _ Hc Ha).
  rewrite bool_decide_false by (intros Hx; by apply Hx). simpl.
  destruct (make_active_spec newCameraEl newCamera (activeCameraEl s)
              (querySelectorAll (children s) sel_camera s) s)
    as (s' & -> & _ & Hch & _ & _ & _ & _ & Hact & Hent).
  exists s'. split_and!; try done.
  rewrite Hch. apply querySelector_ext. intros r.
  rewrite Hent. apply disable_store_marker.
Qed.

Lemma setActiveCamera_keeps_wrapped_default_witness :
  ∃ s', setActiveCamera 1 wrapped_default_scene = Normal s'
    ∧ activeCameraEl s' = Some 1
    ∧ children s' = children wrapped_default_scene
    ∧ querySelector (children s') sel_default_camera s'
      = querySelector (children wrapped_default_scene) sel_default_camera
          wrapped_default_scene.
Proof.
  apply (setActiveCamera_keeps_wrapped_default 1 wrapped_default_scene
           (mkObject3D 101 1)).
  - vm_compute. reflexivity.
  - vm_compute. discriminate.
  - vm_compute. reflexivity.
Defined.

(** X4. When the marked element carries the [camera] attribute itself and
    has no camera below it (the default camera as [checkForCamera] builds
    it), it does not count as the default camera for [setActiveCamera]:
    activating it while [sceneEl.camera] is set takes it out of the children
    of the scene and makes it the active camera all the same. *)
Theorem setActiveCamera_detaches_marked_target
    (s : State) (d : Node) (newCamera : Object3D) :
  querySelector (children s) sel_default_camera s = Some d →
  querySelector (childNodes d) sel_camera s = None →
  getObject3D_camera (ref d) s = Some newCamera →
  activeCameraEl s ≠ Some (ref d) →
  is_Some (sceneEl_camera s) →
  ref d ∈ ref <$> children s →
  ∃ s', setActiveCamera (ref d) s = Normal s'
    ∧ activeCameraEl s' = Some (ref d)
    ∧ sceneEl_camera s' = Some newCamera
    ∧ children s' = filter (λ n, ref n ≠ ref d) (children s)
    ∧ (ref d ∉ ref <$> children s').
Proof.
  intros Hq Hsub Hc Ha [c0 Hsc] Hin.
  assert (Hnd : Some (ref d) ≠ ref <$> defaultCameraEl_of s).
  { unfold defaultCameraEl_of. rewrite Hq. simpl. by rewrite Hsub. }
  rewrite (setActiveCamera_unfold _ _ _ Hc Ha).
  rewrite (bool_decide_true _ Hnd).
  rewrite removeDefaultCamera_global, Hsc, Hq.
  unfold removeChild. rewrite bool_decide_true by done. simpl.
  destruct (make_active_spec (ref d) newCamera (activeCameraEl s)
              (querySelectorAll (children s) sel_camera s)
              (set_children (filter (λ n, ref n ≠ ref d)) s))
    as (s' & -> & _ & Hch & Hcam & _ & _ & _ & Hact & _).
  simpl in Hch. exists s'. split_and!; try done.
  rewrite Hch. intros Hx. apply list_elem_of_fmap in Hx as (n & Hr & Hn).
  apply list_elem_of_filter in Hn as [Hn _]. by apply Hn.
Qed.

Lemma setActiveCamera_detaches_marked_target_witness :
  ∃ s', setActiveCamera (ref (node 0 [])) author_first_scene = Normal s'
    ∧ activeCameraEl s' = Some (ref (node 0 []))
    ∧ sceneEl_camera s' = Some (mkObject3D 100 0)
    ∧ children s' = filter (λ n, ref n ≠ ref (node 0 []))
                      (children author_first_scene)
    ∧ (ref (node 0 []) ∉ ref <$> children s').
Proof.
  apply (setActiveCamera_detaches_marked_target author_first_scene (node 0 [])
           (mkObject3D 100 0)).
  - vm_compute. reflexivity.
  - vm_compute. reflexivity.
  - vm_compute. reflexivity.
  - vm_compute. discriminate.
  - vm_compute. by eexists.
  - vm_compute. apply list_elem_of_here.
Defined.


(** X5. A switch plays the target, pauses every other camera-capable entity
    of the scene, and emits exactly one [camera-set-active] event, whose
    payload is the target, after the events already emitted. *)
Theorem setActiveCamera_plays_target_pauses_others
    (newCameraEl : nat) (s : State) (newCamera : Object3D) :
  getObject3D_camera newCameraEl s = Some newCamera →
  activeCameraEl s ≠ Some newCameraEl →
  (∀ d, querySelector (children s) sel_default_camera s = Some d →
        ref d ∈ ref <$> children s) →
  ∃ s', setActiveCamera newCameraEl s = Normal s'
    ∧ emitted s' = emitted s ++ [mkEvent "camera-set-active" newCameraEl]
    ∧ isPlaying <$> entities s' !! newCameraEl = Some true
    ∧ (∀ n, n ∈ querySelectorAll (children s) sel_camera s →
            ref n ≠ newCameraEl →
            isPlaying <$> entities s' !! ref n = Some false).
Proof.
  intros Hc Ha Hattached.
  destruct (setActiveCamera_spec newCameraEl s newCamera Hc Ha)
    as [(_ & _ & d & Hq & Hnin) | (s' & -> & Hsw)].
  { exfalso. by apply Hnin, Hattached. }
  exists s'. split_and!; [done|apply (sw_emitted _ _ _ _ Hsw)| |].
  - rewrite (switched_target _ _ _ _ Ha Hsw).
    unfold getObject3D_camera in Hc.
    by destruct (entities s !! newCameraEl).
  - intros n Hn Hne. rewrite (sw_entities _ _ _ _ Hsw).
    rewrite bool_decide_true
      by (split; [done|]; apply list_elem_of_fmap; eauto).
    rewrite store_other by done.
    apply elem_of_querySelectorAll in Hn as [_ Hm].
    apply matches_camera_Some in Hm as (e & c & -> & _).
    by case_bool_decide.
Qed.

Lemma setActiveCamera_plays_target_pauses_others_witness :
  ∃ s', setActiveCamera 2 (two_camera_scene 1) = Normal s'
    ∧ emitted s' = emitted (two_camera_scene 1)
                   ++ [mkEvent "camera-set-active" 2]
    ∧ isPlaying <$> entities s' !! 2 = Some true
    ∧ (∀ n, n ∈ querySelectorAll (children (two_camera_scene 1)) sel_camera
                  (two_camera_scene 1) →
            ref n ≠ 2 →
            isPlaying <$> entities s' !! ref n = Some false).
Proof.
  apply (setActiveCamera_plays_target_pauses_others 2 (two_camera_scene 1)
           (mkObject3D 102 2)).
  - vm_compute. reflexivity.
  - vm_compute. discriminate.
  - intros d Hd. vm_compute in Hd. discriminate.
Defined.

(** X6. A switch sets [active] to false on the previous active camera,
    whether or not that element is still in the scene; an element that is
    no longer in the scene is not paused by it. *)
Theorem setActiveCamera_deactivates_previous
    (newCameraEl : nat) (s : State) (newCamera : Object3D) (previousCamera : nat) :
  getObject3D_camera newCameraEl s = Some newCamera →
  activeCameraEl s = Some previousCamera →
  previousCamera ≠ newCameraEl →
  is_Some (entities s !! previousCamera) →
  (∀ d, querySelector (children s) sel_default_camera s = Some d →
        ref d ∈ ref <$> children s) →
  ∃ s', setActiveCamera newCameraEl s = Normal s'
    ∧ camera_active previousCamera s' = Some false
    ∧ ((∀ n, n ∈ querySelectorAll (children s) sel_camera s →
             ref n ≠ previousCamera) →
       isPlaying <$> entities s' !! previousCamera
       = isPlaying <$> entities s !! previousCamera).
Proof.
  intros Hc Hp Hne [e He] Hattached.
  assert (Ha : activeCameraEl s ≠ Some newCameraEl) by congruence.
  destruct (setActiveCamera_spec newCameraEl s newCamera Hc Ha)
    as [(_ & _ & d & Hq & Hnin) | (s' & -> & Hsw)].
  { exfalso. by apply Hnin, Hattached. }
  exists s'. split; [done|].
  pose proof (sw_entities _ _ _ _ Hsw previousCamera) as Hent.
  assert (Hst : store_before_loop newCameraEl (activeCameraEl s) (entities s)
                  !! previousCamera
                = Some (with_camera (mkCameraData false) e)).
  { rewrite store_other by done.
    rewrite (bool_decide_true (activeCameraEl s = Some previousCamera)) by done.
    by rewrite He. }
  rewrite Hst in Hent.
  split.
  - unfold camera_active. rewrite Hent. by case_bool_decide.
  - intros Hout. rewrite Hent, He.
    rewrite bool_decide_false; [done|].
    intros [_ Hx]. apply list_elem_of_fmap in Hx as (n & Hr & Hn).
    by apply (Hout n).
Qed.

Lemma setActiveCamera_deactivates_previous_witness :
  ∃ s', setActiveCamera 1 default_active_and_author_scene = Normal s'
    ∧ camera_active 0 s' = Some false
    ∧ ((∀ n, n ∈ querySelectorAll (children default_active_and_author_scene)
                   sel_camera default_active_and_author_scene →
             ref n ≠ 0) →
       isPlaying <$> entities s' !! 0
       = isPlaying <$> entities default_active_and_author_scene !! 0).
Proof.
  apply (setActiveCamera_deactivates_previous 1 default_active_and_author_scene
           (mkObject3D 101 1) 0).
  - vm_compute. reflexivity.
  - vm_compute. reflexivity.
  - discriminate.
  - vm_compute. by eexists.
  - intros d Hd. vm_compute in Hd. injection Hd as <-. vm_compute.
    apply list_elem_of_here.
Defined.


(** ** Further properties of [disableActiveCamera] *)

Lemma disableActiveCamera_last s n :
  list.last (querySelectorAll (children s) sel_camera s) = Some n →
  disableActiveCamera s = Normal (setAttribute_camera_active (ref n) true s).
Proof. intros Hn. unfold disableActiveCamera. by rewrite item_last, Hn. Qed.

(** Setting [active] on a camera-capable entity changes the result of no
    query: the entity had a [camera] attribute already. *)
Lemma sel_after_activate {A} (sel : Entity → A) s n b :
  (∀ e c, camera e = Some c → sel (with_camera (mkCameraData b) e) = sel e) →
  matches sel_camera s n = true →
  ∀ r, sel <$> entities (setAttribute_camera_active (ref n) b s) !! r
       = sel <$> entities s !! r.
Proof.
  intros Hsel Hm r. apply matches_camera_Some in Hm as (e & c & He & Hc).
  simpl. destruct (decide (ref n = r)) as [<-|Hne].
  - rewrite lookup_alter_eq, He. simpl. f_equal. by apply (Hsel e c).
  - by rewrite lookup_alter_ne.
Qed.

Lemma last_camera_matches s n :
  list.last (querySelectorAll (children s) sel_camera s) = Some n →
  matches sel_camera s n = true.
Proof.
  intros Hn. apply last_Some_elem_of in Hn.
  by apply elem_of_querySelectorAll in Hn as [_ Hm].
Qed.

Lemma disableActiveCamera_no_camera_throw s :
  querySelectorAll (children s) sel_camera s = [] →
  disableActiveCamera s = Throw TypeError s.
Proof. intros H. unfold disableActiveCamera. by rewrite H. Qed.

(** X8. [disableActiveCamera] is idempotent: a second call right after the
    first ends as the first did and leaves its state unchanged (it throws
    again on a scene without cameras, and otherwise picks the same camera
    and writes the same value). *)
Theorem disableActiveCamera_twice (s : State) :
  disableActiveCamera (state_of (disableActiveCamera s)) = disableActiveCamera s.
Proof.
  destruct (list.last (querySelectorAll (children s) sel_camera s)) as [n|] eqn:Hn.
  - rewrite (disableActiveCamera_last s n Hn). simpl.
    pose proof (last_camera_matches s n Hn) as Hm.
    assert (Hsame : querySelectorAll
                      (children (setAttribute_camera_active (ref n) true s))
                      sel_camera (setAttribute_camera_active (ref n) true s)
                    = querySelectorAll (children s) sel_camera s).
    { apply querySelectorAll_ext, sel_after_activate; [|done].
      intros e c Hc. unfold sel_camera. simpl. by rewrite Hc. }
    rewrite (disableActiveCamera_last _ n) by (by rewrite Hsame).
    f_equal. destruct s as [ents nr ch cam ls em ts ac].
    unfold setAttribute_camera_active, set_entities. simpl. f_equal.
    rewrite alter_alter_eq. apply alter_ext. by intros [] _.
  - apply last_None in Hn.
    rewrite (disableActiveCamera_no_camera_throw s Hn). simpl.
    by apply disableActiveCamera_no_camera_throw.
Qed.

(** X9. Passing the torch: when [disableActiveCamera] is followed by
    [setActiveCamera] on the camera it picked (the camera component's
    reaction to the attribute it set), the picked camera, the last of the
    scene, becomes the active camera with [active] true and every other
    camera-capable entity of the scene has [active] false. *)
Theorem disableActiveCamera_then_setActiveCamera
    (s : State) (n : Node) (newCamera : Object3D) :
  list.last (querySelectorAll (children s) sel_camera s) = Some n →
  getObject3D_camera (ref n) s = Some newCamera →
  activeCameraEl s ≠ Some (ref n) →
  (∀ d, querySelector (children s) sel_default_camera s = Some d →
        ref d ∈ ref <$> children s) →
  ∃ s1 s2, disableActiveCamera s = Normal s1
    ∧ setActiveCamera (ref n) s1 = Normal s2
    ∧ activeCameraEl s2 = Some (ref n)
    ∧ sceneEl_camera s2 = Some newCamera
    ∧ camera_active (ref n) s2 = Some true
    ∧ (∀ m, m ∈ querySelectorAll (children s2) sel_camera s2 →
            ref m ≠ ref n → camera_active (ref m) s2 = Some false).
Proof.
  intros Hn Hc Ha Hattached.
  pose proof (last_camera_matches s n Hn) as Hm.
  set (s1 := setAttribute_camera_active (ref n) true s).
  exists s1.
  assert (Hc1 : getObject3D_camera (ref n) s1 = Some newCamera).
  { unfold getObject3D_camera in *. unfold s1. simpl. rewrite lookup_alter_eq.
    by destruct (entities s !! ref n). }
  assert (Hact1 : camera_active (ref n) s1 = Some true).
  { apply matches_camera_Some in Hm as (e & c & He & _).
    unfold camera_active, s1. simpl. by rewrite lookup_alter_eq, He. }
  assert (Hq1 : querySelector (children s1) sel_default_camera s1
                = querySelector (children s) sel_default_camera s).
  { apply querySelector_ext, sel_after_activate; [|done]. by intros [] c _. }
  destruct (setActiveCamera_spec (ref n) s1 newCamera Hc1 Ha)
    as [(_ & _ & d & Hq & Hnin) | (s2 & Hret & Hsw)].
  { exfalso. apply Hnin. rewrite Hq1 in Hq. by apply Hattached. }
  exists s2. split_and!.
  - by apply disableActiveCamera_last.
  - done.
  - apply (sw_activeCameraEl _ _ _ _ Hsw).
  - apply (sw_sceneEl_camera _ _ _ _ Hsw).
  - by rewrite (switched_target_active (ref n) newCamera s1 s2 Ha Hsw).
  - intros m Hin Hne. apply (switched_others _ _ _ _ m Hsw Hne). auto.
Qed.

Lemma disableActiveCamera_then_setActiveCamera_witness :
  ∃ s1 s2, disableActiveCamera (two_camera_scene 1) = Normal s1
    ∧ setActiveCamera (ref (node 2 [])) s1 = Normal s2
    ∧ activeCameraEl s2 = Some (ref (node 2 []))
    ∧ sceneEl_camera s2 = Some (mkObject3D 102 2)
    ∧ camera_active (ref (node 2 [])) s2 = Some true
    ∧ (∀ m, m ∈ querySelectorAll (children s2) sel_camera s2 →
            ref m ≠ ref (node 2 []) → camera_active (ref m) s2 = Some false).
Proof.
  apply (disableActiveCamera_then_setActiveCamera (two_camera_scene 1) (node 2 [])
           (mkObject3D 102 2)).
  - vm_compute. reflexivity.
  - vm_compute. reflexivity.
  - vm_compute. discriminate.
  - intros d Hd. vm_compute in Hd. discriminate.
Defined.

(** X10. [disableActiveCamera] does not look at [activeCameraEl]: when the
    active camera is itself the last camera of the scene, it is the one
    whose [active] is set to true again, and the [setActiveCamera] call
    that follows returns at its guard, so the active camera stays. *)
Theorem disableActiveCamera_may_pick_active (s : State) (n : Node) :
  list.last (querySelectorAll (children s) sel_camera s) = Some n →
  activeCameraEl s = Some (ref n) →
  ∃ s1, disableActiveCamera s = Normal s1
    ∧ camera_active (ref n) s1 = Some true
    ∧ activeCameraEl s1 = Some (ref n)
    ∧ setActiveCamera (ref n) s1 = Normal s1.
Proof.
  intros Hn Ha. pose proof (last_camera_matches s n Hn) as Hm.
  exists (setAttribute_camera_active (ref n) true s). split_and!.
  - by apply disableActiveCamera_last.
  - apply matches_camera_Some in Hm as (e & c & He & _).
    unfold camera_active. simpl. by rewrite lookup_alter_eq, He.
  - done.
  - by apply setActiveCamera_already_active.
Qed.

Lemma disableActiveCamera_may_pick_active_witness :
  ∃ s1, disableActiveCamera (two_camera_scene 2) = Normal s1
    ∧ camera_active (ref (node 2 [])) s1 = Some true
    ∧ activeCameraEl s1 = Some (ref (node 2 []))
    ∧ setActiveCamera (ref (node 2 [])) s1 = Normal s1.
Proof.
  apply (disableActiveCamera_may_pick_active (two_camera_scene 2) (node 2 [])).
  - vm_compute. reflexivity.
  - vm_compute. reflexivity.
Defined.

(** ** Further properties of the offset methods *)

(** X12. The offsets accumulate: after [k] calls of [removeDefaultOffset] in
    a row (enter-vr without the matching exit-vr) the default camera, still
    found by its marker, sits where [k] successive binary64 subtractions of
    the default position leave it, and likewise for [k] calls of
    [addDefaultOffset] with additions; no call is skipped. *)
Theorem offsets_accumulate (s : State) (d : Node) (p : Vec3) (k : nat) :
  querySelector (children s) sel_default_camera s = Some d →
  getAttribute_position (ref d) s = Some p →
  (querySelector (children (Nat.iter k removeDefaultOffset s)) sel_default_camera
     (Nat.iter k removeDefaultOffset s) = Some d
   ∧ getAttribute_position (ref d) (Nat.iter k removeDefaultOffset s)
     = Some (Nat.iter k (λ q, vec_sub q DEFAULT_CAMERA_POSITION) p))
  ∧ (querySelector (children (Nat.iter k addDefaultOffset s)) sel_default_camera
       (Nat.iter k addDefaultOffset s) = Some d
     ∧ getAttribute_position (ref d) (Nat.iter k addDefaultOffset s)
       = Some (Nat.iter k (λ q, vec_add q DEFAULT_CAMERA_POSITION) p)).
Proof.
  intros Hq Hp. split.
  - induction k as [|k [IHq IHp]]; simpl; [done|].
    by apply removeDefaultOffset_step.
  - induction k as [|k [IHq IHp]]; simpl; [done|].
    by apply addDefaultOffset_step.
Qed.

Lemma offsets_accumulate_witness :
  (querySelector (children (Nat.iter 2 removeDefaultOffset default_scene))
     sel_default_camera (Nat.iter 2 removeDefaultOffset default_scene)
   = Some (node 0 [])
   ∧ getAttribute_position (ref (node 0 []))
       (Nat.iter 2 removeDefaultOffset default_scene)
     = Some (Nat.iter 2 (λ q, vec_sub q DEFAULT_CAMERA_POSITION)
               DEFAULT_CAMERA_POSITION))
  ∧ (querySelector (children (Nat.iter 2 addDefaultOffset default_scene))
       sel_default_camera (Nat.iter 2 addDefaultOffset default_scene)
     = Some (node 0 [])
     ∧ getAttribute_position (ref (node 0 []))
         (Nat.iter 2 addDefaultOffset default_scene)
       = Some (Nat.iter 2 (λ q, vec_add q DEFAULT_CAMERA_POSITION)
                 DEFAULT_CAMERA_POSITION)).
Proof.
  apply (offsets_accumulate default_scene (node 0 []) DEFAULT_CAMERA_POSITION 2).
  - vm_compute. reflexivity.
  - vm_compute. reflexivity.
Defined.

(** ** Further properties of the deferred check and of the lifetime *)

Lemma checkForCamera_other s r :
  sceneEl_camera s = None → r ≠ next_ref s →
  entities (checkForCamera s) !! r = entities s !! r.
Proof.
  intros Hsc Hr. unfold checkForCamera. rewrite Hsc. simpl.
  rewrite !lookup_alter_ne by done. by rewrite lookup_insert_ne.
Qed.

Lemma descendants_app l1 l2 : descendants (l1 ++ l2) = descendants l1 ++ descendants l2.
Proof. apply flat_map_app. Qed.

(** X13. Run on a scene without a camera, without a marked element and in
    which the new reference does not occur, [checkForCamera] leaves exactly
    one marked element in the scene: the new element, at the default
    position, with [active] true, last among the camera-capable entities
    of the scene; and both offset listeners are registered. *)
Theorem checkForCamera_one_default (s : State) :
  sceneEl_camera s = None →
  querySelectorAll (children s) sel_default_camera s = [] →
  (∀ n, n ∈ descendants (children s) → ref n ≠ next_ref s) →
  querySelectorAll (children (checkForCamera s)) sel_default_camera (checkForCamera s)
  = [node (next_ref s) []]
  ∧ getAttribute_position (next_ref s) (checkForCamera s)
    = Some DEFAULT_CAMERA_POSITION
  ∧ camera_active (next_ref s) (checkForCamera s) = Some true
  ∧ list.last (querySelectorAll (children (checkForCamera s)) sel_camera
                 (checkForCamera s))
    = Some (node (next_ref s) [])
  ∧ ("enter-vr", bound_removeDefaultOffset) ∈ listeners (checkForCamera s)
  ∧ ("exit-vr", bound_addDefaultOffset) ∈ listeners (checkForCamera s).
Proof.
  intros Hsc Hnone Hfresh.
  destruct (checkForCamera_creates s Hsc) as [Hnew Hch].
  assert (Hdesc : descendants (children (checkForCamera s))
                  = descendants (children s) ++ [node (next_ref s) []]).
  { by rewrite Hch, descendants_app. }
  assert (Hold : ∀ sel n, n ∈ descendants (children s) →
                   matches sel (checkForCamera s) n = matches sel s n).
  { intros sel n Hn. unfold matches.
    by rewrite (checkForCamera_other s (ref n) Hsc (Hfresh n Hn)). }
  split_and!.
  - unfold querySelectorAll. rewrite Hdesc, list.filter_app.
    rewrite (filter_cons_True _ (node (next_ref s) []))
      by (unfold matches; simpl; by rewrite Hnew).
    rewrite filter_nil.
    replace (filter (λ n, Is_true (matches sel_default_camera (checkForCamera s) n))
               (descendants (children s))) with (@nil Node); [done|].
    symmetry.
    destruct (filter _ (descendants (children s))) as [|a l] eqn:Hf; [done|].
    assert (Ha : a ∈ filter (λ n, Is_true (matches sel_default_camera
                                             (checkForCamera s) n))
                   (descendants (children s)))
      by (rewrite Hf; apply list_elem_of_here).
    apply list_elem_of_filter in Ha as [Hm Ha]. rewrite (Hold _ a Ha) in Hm.
    exfalso. by apply (filter_nil_not_elem_of _ _ a Hnone Hm).
  - unfold getAttribute_position. by rewrite Hnew.
  - unfold camera_active. by rewrite Hnew.
  - unfold querySelectorAll. rewrite Hdesc, list.filter_app.
    rewrite (filter_cons_True _ (node (next_ref s) []))
      by (unfold matches; simpl; by rewrite Hnew).
    rewrite filter_nil. apply last_snoc.
  - unfold checkForCamera. rewrite Hsc. simpl.
    case_bool_decide as H2.
    + case_bool_decide as H1; [done|]. apply elem_of_app. right.
      apply list_elem_of_here.
    + apply elem_of_app. left.
      case_bool_decide as H1; [done|]. apply elem_of_app. right.
      apply list_elem_of_here.
  - unfold checkForCamera. rewrite Hsc. simpl.
    case_bool_decide as H2; [done|]. apply elem_of_app. right.
    apply list_elem_of_here.
Qed.

Lemma checkForCamera_one_default_witness :
  querySelectorAll (children (checkForCamera (one_camera_scene true)))
    sel_default_camera (checkForCamera (one_camera_scene true))
  = [node (next_ref (one_camera_scene true)) []]
  ∧ getAttribute_position (next_ref (one_camera_scene true))
      (checkForCamera (one_camera_scene true))
    = Some DEFAULT_CAMERA_POSITION
  ∧ camera_active (next_ref (one_camera_scene true))
      (checkForCamera (one_camera_scene true)) = Some true
  ∧ list.last (querySelectorAll (children (checkForCamera (one_camera_scene true)))
                 sel_camera (checkForCamera (one_camera_scene true)))
    = Some (node (next_ref (one_camera_scene true)) [])
  ∧ ("enter-vr", bound_removeDefaultOffset)
    ∈ listeners (checkForCamera (one_camera_scene true))
  ∧ ("exit-vr", bound_addDefaultOffset)
    ∈ listeners (checkForCamera (one_camera_scene true)).
Proof.
  apply (checkForCamera_one_default (one_camera_scene true)).
  - reflexivity.
  - vm_compute. reflexivity.
  - intros n Hn. cbn in Hn. apply list_elem_of_singleton in Hn as ->.
    discriminate.
Defined.











